(** * A bot supervisor: the registry of [src/bot.py]

    The development embeds the class [BotManager] of [src/bot.py], the
    handlers of the main bot that drive it ([handle_token],
    [stop_specific_bot], [stop_all_command]) and the part of the operating
    system they talk to (the snapshot file [running_bots.json], the child
    processes), and proves the properties the specification states about
    them.

    Only the supervisor process is modelled: what a child does with its own
    copy of the manager is outside the development, and so is how long a
    child lives: a child may end at any time after its start, and the
    supervisor goes on tracking it.  What the supervisor
    cannot decide (whether a process starts, whether it exits in time,
    whether a write succeeds, what the validation of a token answers, what
    the clock shows) is an input of the operations.

    The file has three parts: the program, the notions used to state its
    properties (followed by the validation of a token, the stop keyboard
    and the routing of its buttons, which only the further properties
    use), and the facts: the
    properties of the specification, C1 to C10, and further properties of
    the code, X1 to X19. *)

From Stdlib Require Import List String Ascii Bool Arith Lia.
Import ListNotations.
Local Open Scope string_scope.
Local Open Scope list_scope.

Set Implicit Arguments.

(* ===================================================================== *)
(** * Python dictionaries with string keys

    A [dict] keeps its keys in insertion order; [d[k] = v] on a key that is
    already there changes the value in place, on a new key it appends. *)
(* ===================================================================== *)

Module Dict.
Section Ops.
Variable V : Type.

Definition t := list (string * V).

(** [d.get(k)] *)
Fixpoint get (k : string) (d : t) : option V :=
  match d with
  | [] => None
  | (k', v) :: r => if String.eqb k' k then Some v else get k r
  end.

(** [k in d] *)
Definition mem (k : string) (d : t) : bool :=
  match get k d with Some _ => true | None => false end.

(** [d[k] = v] *)
Fixpoint set (k : string) (v : V) (d : t) : t :=
  match d with
  | [] => [(k, v)]
  | (k', v') :: r =>
      if String.eqb k' k then (k, v) :: r else (k', v') :: set k v r
  end.

(** [del d[k]], used in the source only under the guard [k in d] *)
Fixpoint del (k : string) (d : t) : t :=
  match d with
  | [] => []
  | (k', v') :: r =>
      if String.eqb k' k then del k r else (k', v') :: del k r
  end.

Definition keys (d : t) : list string := map fst d.
Definition values (d : t) : list V := map snd d.

(** [for k in ids: del d[k]] *)
Definition del_all (ids : list string) (d : t) : t :=
  fold_left (fun acc k => del k acc) ids d.
End Ops.

(** [{k: f(v) for k, v in d.items()}] *)
Definition map_values (A B : Type) (f : A -> B) (d : t A) : t B :=
map (fun kv => (fst kv, f (snd kv))) d.
End Dict.

(* ===================================================================== *)
(** * Values of [json.load]

    What [json.load] can hand back.  Numbers are kept as their literal: the
    program never computes with them. *)
(* ===================================================================== *)

Set Warnings "-register-all".

Inductive pyval : Type :=
| PNone
| PBool (b : bool)
| PNum (literal : string)
| PStr (s : string)
| PList (l : list pyval)
| PDict (d : list (string * pyval)).

(** [s == v] for a [str] [s]: only another equal [str] is equal to it. *)
Definition str_eq_val (s : string) (v : pyval) : bool :=
  match v with PStr s' => String.eqb s s' | _ => false end.

(** [sub in s] on strings *)
Fixpoint is_infix (sub s : string) : bool :=
  if String.prefix sub s then true
  else match s with
       | EmptyString => false
       | String _ r => is_infix sub r
       end.

(* ===================================================================== *)
(** * The clock and the minted identifier *)
(* ===================================================================== *)

(** What [datetime.now()] returns. *)
Record datetime : Type := mkDatetime {
  year : nat; month : nat; day : nat;
  hour : nat; minute : nat; second : nat;
  microsecond : nat
}.

Definition digit (n : nat) : ascii := ascii_of_nat (48 + n mod 10).

Definition pad2 (n : nat) : string :=
  String (digit (n / 10)) (String (digit n) EmptyString).

Definition pad4 (n : nat) : string :=
  String (digit (n / 1000)) (String (digit (n / 100)) (pad2 n)).

(** [now.strftime('%Y%m%d_%H%M%S')]; the year is taken to have four digits,
    as every year the clock of a running system shows has. *)
Definition strftime_Ymd_HMS (now : datetime) : string :=
  pad4 (year now) ++ pad2 (month now) ++ pad2 (day now) ++ "_"
  ++ pad2 (hour now) ++ pad2 (minute now) ++ pad2 (second now).

(** [f"bot_{datetime.now().strftime('%Y%m%d_%H%M%S')}"] *)
Definition mint_bot_id (now : datetime) : string :=
  "bot_" ++ strftime_Ymd_HMS now.

(** [MAX_BOTS] *)
Definition MAX_BOTS : nat := 10.

(* ===================================================================== *)
(** * The world of the supervisor *)
(* ===================================================================== *)

(** A [BotProcess] object.  [pid] is the identity of the object (and of the
    operating-system process behind it, once started). *)
Record BotProcess : Type := mkBotProcess {
  token : pyval;
  bot_id : string;
  pid : nat
}.

(** The file [BOTS_DATA_FILE] as the next [json.load] will find it. *)
Inductive File : Type :=
| Missing                 (* [os.path.exists] is false *)
| Unreadable              (* [open] or [json.load] raises *)
| Content (data : pyval). (* [json.load] returns [data] *)

(** How an attempt [open(BOTS_DATA_FILE, 'w')], [json.dump] ends. *)
Inductive WriteOutcome : Type :=
| Written                 (* the file holds the dumped value *)
| OpenFailed              (* [open] raised: the file is as it was *)
| Torn.                   (* [json.dump] raised after the file was truncated *)

Inductive Exn : Type :=
| OSError | JSONDecodeError | AttributeError | TypeError.

(** The messages of [logger], by the place of the call. *)
Inductive LogMsg : Type :=
| Loaded (n : nat)                      (* "Loaded {n} saved bots" *)
| Restarting (id : string)              (* "Restarting bot {id}" *)
| ErrorLoading (e : Exn)                (* "Error loading saved bots: {e}" *)
| ErrorSaving                           (* "Error saving bots: {e}" *)
| Added (id : string) (total : nat)     (* "Added bot {id}. Total bots: {n}" *)
| Removed (id : string)                 (* "Removed bot {id}" *)
| AllStopped.                           (* "All bots stopped" *)

(** What the supervisor does to its surroundings, in the order it does it. *)
Inductive Level : Type := INFO | ERROR.

Inductive Event : Type :=
| Log (l : Level) (m : LogMsg)
| SysStart (p : nat) (ok : bool)        (* [process.start()] *)
| SysTerminate (p : nat)                (* [process.terminate()] *)
| SysJoin (p : nat) (timeout : nat)     (* [process.join(timeout=...)] *)
| SysWrite (o : WriteOutcome).          (* [open(..., 'w')] and [json.dump] *)

Record World : Type := mkWorld {
  processes : Dict.t BotProcess;   (* [bot_manager.processes] *)
  tokens : pyval;                  (* [bot_manager.tokens] *)
  disk : File;                     (* [BOTS_DATA_FILE] *)
  alive : list nat;                (* children started and not yet exited *)
  next_pid : nat;                  (* [BotProcess] objects made so far *)
  writes : nat;                    (* attempts to write the file so far *)
  trace : list Event               (* latest event first *)
}.

(** What the supervisor cannot decide: whether a process starts, whether a
    process that was asked to terminate is gone when [join] returns, and how
    a write of the file ends. *)
Record Env : Type := mkEnv {
  spawn_ok : nat -> bool;               (* by [pid] *)
  exits_on_term : nat -> bool;          (* by [pid] *)
  write_outcome : nat -> WriteOutcome   (* by the number of the attempt *)
}.

Definition with_processes (d : Dict.t BotProcess) (w : World) : World :=
  mkWorld d (tokens w) (disk w) (alive w) (next_pid w) (writes w) (trace w).
Definition with_tokens (t : pyval) (w : World) : World :=
  mkWorld (processes w) t (disk w) (alive w) (next_pid w) (writes w) (trace w).
Definition with_disk (f : File) (w : World) : World :=
  mkWorld (processes w) (tokens w) f (alive w) (next_pid w) (writes w) (trace w).
Definition with_alive (l : list nat) (w : World) : World :=
  mkWorld (processes w) (tokens w) (disk w) l (next_pid w) (writes w) (trace w).
Definition with_next_pid (n : nat) (w : World) : World :=
  mkWorld (processes w) (tokens w) (disk w) (alive w) n (writes w) (trace w).
Definition with_writes (n : nat) (w : World) : World :=
  mkWorld (processes w) (tokens w) (disk w) (alive w) (next_pid w) n (trace w).
Definition emit (e : Event) (w : World) : World :=
  mkWorld (processes w) (tokens w) (disk w) (alive w) (next_pid w) (writes w)
          (e :: trace w).

(* ===================================================================== *)
(** * Statements that change the world and may raise

    A raised exception leaves the world as the statements before it made
    it: nothing is rolled back. *)
(* ===================================================================== *)

Inductive result (A : Type) : Type :=
| Ok (a : A)
| Raise (e : Exn).
Arguments Ok {A} a.
Arguments Raise {A} e.

Definition M (A : Type) : Type := World -> result A * World.

Definition ret {A} (a : A) : M A := fun w => (Ok a, w).
Definition raise {A} (e : Exn) : M A := fun w => (Raise e, w).
Definition bind {A B} (c : M A) (k : A -> M B) : M B :=
  fun w => match c w with
           | (Ok a, w') => k a w'
           | (Raise e, w') => (Raise e, w')
           end.
(** [try: c  except Exception as e: h e] *)
Definition try_except {A} (c : M A) (h : Exn -> M A) : M A :=
  fun w => match c w with
           | (Ok a, w') => (Ok a, w')
           | (Raise e, w') => h e w'
           end.
Definition gets {A} (f : World -> A) : M A := fun w => (Ok (f w), w).
Definition modify (f : World -> World) : M unit := fun w => (Ok tt, f w).

Declare Scope py_scope.
Delimit Scope py_scope with py.
Notation "x <- c ;; k" := (bind c (fun x => k))
  (at level 100, c at next level, right associativity) : py_scope.
Notation "c ;; k" := (bind c (fun _ => k))
  (at level 100, right associativity) : py_scope.
Local Open Scope py_scope.

(** [for x in l: body x] *)
Fixpoint for_each {A} (l : list A) (body : A -> M unit) : M unit :=
  match l with
  | [] => ret tt
  | x :: r => body x ;; for_each r body
  end.

Definition logger_info (m : LogMsg) : M unit := modify (emit (Log INFO m)).
Definition logger_error (m : LogMsg) : M unit := modify (emit (Log ERROR m)).

(* ===================================================================== *)
(** * Operations on Python values *)
(* ===================================================================== *)

(** [data.get(key, default)]: only a [dict] has [get]. *)
Definition py_get (data : pyval) (key : string) (default : pyval) : M pyval :=
  match data with
  | PDict d => ret (match Dict.get key d with Some v => v | None => default end)
  | _ => raise AttributeError
  end.

(** [len(v)] *)
Definition py_len (v : pyval) : M nat :=
  match v with
  | PDict d => ret (List.length d)
  | PList l => ret (List.length l)
  | PStr s => ret (String.length s)
  | _ => raise TypeError
  end.

(** [v.items()] *)
Definition py_items (v : pyval) : M (list (string * pyval)) :=
  match v with
  | PDict d => ret d
  | _ => raise AttributeError
  end.

(** [v.values()] *)
Definition py_values (v : pyval) : M (list pyval) :=
  match v with
  | PDict d => ret (Dict.values d)
  | _ => raise AttributeError
  end.

(** [k in v] for a [str] [k] *)
Definition py_contains (k : string) (v : pyval) : M bool :=
  match v with
  | PDict d => ret (Dict.mem k d)
  | PList l => ret (existsb (str_eq_val k) l)
  | PStr s => ret (is_infix k s)
  | _ => raise TypeError
  end.

(** [v[k] = x] for a [str] [k] *)
Definition py_setitem (v : pyval) (k : string) (x : pyval) : M pyval :=
  match v with
  | PDict d => ret (PDict (Dict.set k x d))
  | _ => raise TypeError
  end.

(** [del v[k]] for a [str] [k] that [v] contains *)
Definition py_delitem (v : pyval) (k : string) : M pyval :=
  match v with
  | PDict d => ret (PDict (Dict.del k d))
  | _ => raise TypeError
  end.

(** [s.replace("stop_", "")] *)
Fixpoint replace_stop_ (s : string) : string :=
  match s with
  | String "s" (String "t" (String "o" (String "p" (String "_" r)))) =>
      replace_stop_ r
  | String c r => String c (replace_stop_ r)
  | EmptyString => EmptyString
  end.

(* ===================================================================== *)
(** * The file and the processes *)
(* ===================================================================== *)

Definition os_path_exists : M bool :=
  gets (fun w => match disk w with Missing => false | _ => true end).

(** [with open(BOTS_DATA_FILE, 'r') as f: json.load(f)] *)
Definition json_load_file : M pyval :=
  fun w => match disk w with
           | Content data => (Ok data, w)
           | Unreadable => (Raise JSONDecodeError, w)
           | Missing => (Raise OSError, w)
           end.

Section Supervisor.
Variable env : Env.

(** [with open(BOTS_DATA_FILE, 'w') as f: json.dump(v, f)].  A write that
    succeeds leaves a text that [json.load] reads back as [v]; one that
    fails after [open] leaves a text that [json.load] rejects. *)
Definition json_dump_file (v : pyval) : M unit :=
  fun w =>
    let o := write_outcome env (writes w) in
    let w1 := emit (SysWrite o) (with_writes (S (writes w)) w) in
    match o with
    | Written => (Ok tt, with_disk (Content v) w1)
    | OpenFailed => (Raise OSError, w1)
    | Torn => (Raise OSError, with_disk Unreadable w1)
    end.

(** [BotProcess(token, bot_id)] *)
Definition BotProcess_init (tok : pyval) (id : string) : M BotProcess :=
  fun w => (Ok (mkBotProcess tok id (next_pid w)),
            with_next_pid (S (next_pid w)) w).

(** [process.start()], as the supervisor sees it: the call raises, or it
    returns and the operating system has made a child process.  What the
    child then does is [BotProcess.run], which runs in the child and not
    in the supervisor: it may serve for a long time or end at once (an
    exception of [run_child_bot] is caught and logged in [run], and the
    child exits).  The end of a child is therefore an event of its own,
    [OpChildExit] below, which may come at any time after the start; a
    child is in [alive] from its start to that event.  Nothing here says
    how long a child lives. *)
Definition start (p : BotProcess) : M unit :=
  if spawn_ok env (pid p)
  then modify (fun w => emit (SysStart (pid p) true)
                             (with_alive (pid p :: alive w) w))
  else (modify (emit (SysStart (pid p) false)) ;; raise OSError).

(** [process.is_alive()] *)
Definition is_alive (p : BotProcess) : M bool :=
  gets (fun w => existsb (Nat.eqb (pid p)) (alive w)).

(** [process.terminate()] *)
Definition terminate (p : BotProcess) : M unit :=
  modify (emit (SysTerminate (pid p))).

(** [process.join(timeout=timeout)], called on a process that was asked to
    terminate *)
Definition join (p : BotProcess) (timeout : nat) : M unit :=
  modify (fun w =>
    emit (SysJoin (pid p) timeout)
         (if exits_on_term env (pid p)
          then with_alive (filter (fun q => negb (Nat.eqb q (pid p))) (alive w)) w
          else w)).

(* ===================================================================== *)
(** * [class BotManager] *)
(* ===================================================================== *)

(** [def load_saved_bots(self)]: the whole body is in one [try]. *)
Definition load_saved_bots : M unit :=
  try_except
    (ex <- os_path_exists ;;
     if ex : bool then
       data <- json_load_file ;;
       t <- py_get data "tokens" (PDict []) ;;
       modify (with_tokens t) ;;
       n <- py_len t ;;
       logger_info (Loaded n) ;;
       items <- py_items t ;;
       for_each items (fun it =>
         logger_info (Restarting (fst it)) ;;
         process <- BotProcess_init (snd it) (fst it) ;;
         start process ;;
         modify (fun w =>
           with_processes (Dict.set (fst it) process (processes w)) w))
     else ret tt)
    (fun e => logger_error (ErrorLoading e)).

(** [BotManager()] *)
Definition BotManager_init : M unit :=
  modify (with_processes []) ;;
  modify (with_tokens (PDict [])) ;;
  load_saved_bots.

(** [def save_bots(self)] *)
Definition save_bots : M unit :=
  try_except
    (t <- gets tokens ;;
     json_dump_file (PDict [("tokens", t)]))
    (fun _ => logger_error ErrorSaving).

(** [def add_bot(self, bot_id, token, process)] *)
Definition add_bot (id : string) (tok : string) (process : BotProcess)
  : M unit :=
  modify (fun w => with_processes (Dict.set id process (processes w)) w) ;;
  t <- gets tokens ;;
  t' <- py_setitem t id (PStr tok) ;;
  modify (with_tokens t') ;;
  save_bots ;;
  n <- gets (fun w => List.length (processes w)) ;;
  logger_info (Added id n).

(** [def remove_bot(self, bot_id)] *)
Definition remove_bot (id : string) : M unit :=
  procs <- gets processes ;;
  match Dict.get id procs with
  | Some process =>
      a <- is_alive process ;;
      (if a : bool then terminate process ;; join process 5 else ret tt) ;;
      modify (fun w => with_processes (Dict.del id (processes w)) w) ;;
      logger_info (Removed id)
  | None => ret tt
  end ;;
  t <- gets tokens ;;
  present <- py_contains id t ;;
  if present : bool then
    t' <- py_delitem t id ;;
    modify (with_tokens t') ;;
    save_bots
  else ret tt.

(** [def stop_all_bots(self)]: the loop runs over a copy of the keys. *)
Definition stop_all_bots : M unit :=
  ids <- gets (fun w => Dict.keys (processes w)) ;;
  for_each ids remove_bot ;;
  logger_info AllStopped.

(** [def get_bot_count(self)] *)
Definition get_bot_count : M nat :=
  gets (fun w => List.length (processes w)).

(** [def is_token_used(self, token)] *)
Definition is_token_used (tok : string) : M bool :=
  t <- gets tokens ;;
  vs <- py_values t ;;
  ret (existsb (str_eq_val tok) vs).

(* ===================================================================== *)
(** * The handlers of the main bot *)
(* ===================================================================== *)

(** What a handler answers, by the text of the message it sends. *)
Inductive Reply : Type :=
| InvalidCredential                       (* "Неверный токен. ..." *)
| DuplicateCredential                     (* "Этот токен уже используется ..." *)
| CapacityExceeded                        (* "Достигнут максимальный лимит ..." *)
| Started (id : string) (total : nat)     (* "Новый бот успешно запущен! ..." *)
| Stopped (id : string)                   (* "Бот ... успешно остановлен." *)
| NotFound                                (* "Бот не найден." *)
| AllStoppedReply.                        (* "Все боты остановлены." *)

(** [handle_token]: [tok] is [message.text.strip()], [valid] what
    [await validate_token(token)] returns and [now] what [datetime.now()]
    returns when it is reached. *)
Definition handle_token (tok : string) (valid : bool) (now : datetime)
  : M Reply :=
  if negb valid then ret InvalidCredential else
  used <- is_token_used tok ;;
  if used : bool then ret DuplicateCredential else
  n <- get_bot_count ;;
  if Nat.leb MAX_BOTS n then ret CapacityExceeded else
  let new_bot_id := mint_bot_id now in
  process <- BotProcess_init (PStr tok) new_bot_id ;;
  start process ;;
  add_bot new_bot_id tok process ;;
  total <- get_bot_count ;;
  ret (Started new_bot_id total).

(** [stop_specific_bot]: [data] is [callback.data]. *)
Definition stop_specific_bot (data : string) : M Reply :=
  let id := replace_stop_ data in
  procs <- gets processes ;;
  if Dict.mem id procs then
    remove_bot id ;;
    ret (Stopped id)
  else ret NotFound.

(** [stop_all_command] *)
Definition stop_all_command : M Reply :=
  stop_all_bots ;;
  ret AllStoppedReply.

(* ===================================================================== *)
(** * Runs of the supervisor *)
(* ===================================================================== *)

(** What happens to a running supervisor: a message with a token, a press
    on a stop button, the command [/stop_all], a direct call of
    [remove_bot], and a child that exits on its own. *)
Inductive Op : Type :=
| OpHandleToken (tok : string) (valid : bool) (now : datetime)
| OpStopSpecific (data : string)
| OpStopAll
| OpRemoveBot (id : string)
| OpChildExit (p : nat).

(** An exception that leaves a handler is logged by the dispatcher; the
    world stays as the handler left it. *)
Definition step (w : World) (op : Op) : World :=
  match op with
  | OpHandleToken tok valid now => snd (handle_token tok valid now w)
  | OpStopSpecific data => snd (stop_specific_bot data w)
  | OpStopAll => snd (stop_all_command w)
  | OpRemoveBot id => snd (remove_bot id w)
  | OpChildExit p =>
      with_alive (filter (fun q => negb (Nat.eqb q p)) (alive w)) w
  end.

(** The world after [ops] have happened, one after the other. *)
Definition run (w : World) (ops : list Op) : World := fold_left step ops w.

End Supervisor.

(** The world in which the supervisor is started: nothing runs yet and
    [BOTS_DATA_FILE] is [file]. *)
Definition fresh (file : File) : World :=
  mkWorld [] (PDict []) file [] 0 0 [].

(** The world after [bot_manager = BotManager()]. *)
Definition boot (env : Env) (file : File) : World :=
  snd (BotManager_init env (fresh file)).

(* ===================================================================== *)
(** * Notions used to state the properties *)
(* ===================================================================== *)

(** The snapshot a file holds: what [load_saved_bots] assigns to
    [self.tokens] when it finds that file (see [boot_tokens]). *)
Definition snapshot_of (f : File) : pyval :=
  match f with
  | Content (PDict data) =>
      match Dict.get "tokens" data with Some t => t | None => PDict [] end
  | _ => PDict []
  end.

(** The bot_id -> token entries of a value. *)
Definition entries (v : pyval) : list (string * pyval) :=
  match v with PDict d => d | _ => [] end.

(** The entries of a file that holds a well-formed snapshot; [None] for a
    file that is missing, unreadable or holds something else. *)
Definition snapshot_items (f : File) : option (list (string * pyval)) :=
  match f with
  | Content (PDict data) =>
      match Dict.get "tokens" data with
      | Some (PDict items) => Some items
      | Some _ => None
      | None => Some []
      end
  | _ => None
  end.

(** The file after an attempt to write [v] that ends with [o]. *)
Definition disk_after (o : WriteOutcome) (v : pyval) (old : File) : File :=
  match o with
  | Written => Content v
  | OpenFailed => old
  | Torn => Unreadable
  end.

(** The processes that a recovery without failure makes from [items],
    the first of them with [pid] [n]. *)
Fixpoint respawned (n : nat) (items : list (string * pyval))
  : Dict.t BotProcess :=
  match items with
  | [] => []
  | (k, v) :: r => (k, mkBotProcess v k n) :: respawned (S n) r
  end.

(** The tokens of the tracked processes, by bot_id. *)
Definition credentials (w : World) : Dict.t pyval :=
  Dict.map_values token (processes w).

Section Blocks.
Variable env : Env.

(** The first [if] of [remove_bot]. *)
Definition untrack (id : string) : M unit :=
  procs <- gets processes ;;
  match Dict.get id procs with
  | Some process =>
      a <- is_alive process ;;
      (if a : bool then terminate process ;; join env process 5 else ret tt) ;;
      modify (fun w => with_processes (Dict.del id (processes w)) w) ;;
      logger_info (Removed id)
  | None => ret tt
  end.

(** The second [if] of [remove_bot]. *)
Definition unpersist (id : string) : M unit :=
  t <- gets tokens ;;
  present <- py_contains id t ;;
  if present : bool then
    t' <- py_delitem t id ;;
    modify (with_tokens t') ;;
    save_bots env
  else ret tt.

(** The body of the loop of [load_saved_bots]. *)
Definition restart (it : string * pyval) : M unit :=
  logger_info (Restarting (fst it)) ;;
  process <- BotProcess_init (snd it) (fst it) ;;
  start env process ;;
  modify (fun w => with_processes (Dict.set (fst it) process (processes w)) w).

(** The running processes after [remove_bot] has dealt with process [p]:
    [p] is gone only if it was running and heeded the request in time. *)
Definition alive_after_stop (p : nat) (l : list nat) : list nat :=
  if existsb (Nat.eqb p) l && exits_on_term env p
  then filter (fun q => negb (Nat.eqb q p)) l else l.

End Blocks.

(** The world in which the loop of [load_saved_bots] starts on a file
    whose snapshot has the entries [items]. *)
Definition loaded (file : File) (items : list (string * pyval)) : World :=
  emit (Log INFO (Loaded (List.length items)))
       (with_tokens (PDict items) (fresh file)).

(** The events of an attempt to save that ends with [o]. *)
Definition save_events (o : WriteOutcome) : list Event :=
  match o with
  | Written => [SysWrite Written]
  | _ => [Log ERROR ErrorSaving; SysWrite o]
  end.

(** The events of the first [if] of [remove_bot] on a tracked process. *)
Definition stop_events (id : string) (p : nat) (was_alive : bool)
  : list Event :=
  Log INFO (Removed id)
  :: (if was_alive then [SysJoin p 5; SysTerminate p] else []).

(** ** Invariants *)

(** The two dictionaries agree, at most [MAX_BOTS] processes are tracked and
    no token occurs twice. *)
Definition registry_ok (w : World) : Prop :=
  tokens w = PDict (credentials w) /\
  List.length (processes w) <= MAX_BOTS /\
  NoDup (Dict.values (credentials w)).

(** Every tracked bot_id has a token: [tokens] is a [dict] that has every
    key of [processes], unless nothing is tracked. *)
Definition well_tracked (w : World) : Prop :=
  processes w = [] \/
  exists d, tokens w = PDict d /\
    forall k, In k (Dict.keys (processes w)) -> In k (Dict.keys d).

(** The file holds the tokens of the registry. *)
Definition persisted (w : World) : Prop :=
  snapshot_of (disk w) = tokens w.

(** Every token has a tracked process. *)
Definition all_tracked (w : World) : Prop :=
  forall d, tokens w = PDict d ->
  forall k, In k (Dict.keys d) -> In k (Dict.keys (processes w)).

(** The file and the processes follow [tokens]. *)
Definition consistent (w : World) : Prop := persisted w /\ all_tracked w.

(** ** Inputs of the examples *)

(** Every process starts and exits when asked, every write succeeds. *)
Definition env_ok : Env :=
  mkEnv (fun _ => true) (fun _ => true) (fun _ => Written).

(** The first process that is started fails to start. *)
Definition env_first_spawn_fails : Env :=
  mkEnv (fun n => negb (Nat.eqb n 0)) (fun _ => true) (fun _ => Written).

(** No process exits within the time [join] waits. *)
Definition env_stubborn : Env :=
  mkEnv (fun _ => true) (fun _ => false) (fun _ => Written).

(** A file that [save_bots] wrote for two bots. *)
Definition two_bots : File :=
  Content (PDict [("tokens",
    PDict [("bot_a", PStr "tokA"); ("bot_b", PStr "tokB")])]).

(** 17 May 2024, 09:03:07, twice within that second, and one second
    later. *)
Definition morning : datetime := mkDatetime 2024 5 17 9 3 7 120.
Definition same_second : datetime := mkDatetime 2024 5 17 9 3 7 870.
Definition next_second : datetime := mkDatetime 2024 5 17 9 3 8 15.

(** A supervisor that tracks one bot whose process does not exit in time. *)
Definition one_stubborn_bot : World :=
  run env_stubborn (boot env_stubborn Missing)
      [OpHandleToken "tokA" true morning].

(** ** Statements of the specification that are compared with the code *)

(** The statement of the specification about [stop_all_bots]: afterwards
    nothing is tracked and the snapshot in the file has no entry. *)
Definition stop_all_empties (env : Env) (file : File) (ops : list Op) : Prop :=
  let w' := snd (stop_all_bots env (run env (boot env file) ops)) in
  get_bot_count w' = (Ok 0, w') /\ entries (snapshot_of (disk w')) = [].

(** The statement of the specification about the process of a removed bot:
    once [remove_bot] returns, the process no longer runs. *)
Definition remove_stops_process (env : Env) (w : World) (id : string) : Prop :=
  forall p, Dict.get id (processes w) = Some p ->
            ~ In (pid p) (alive (snd (remove_bot env id w))).

(** The statement of the specification about a start that fails during
    recovery: the entry whose process fails to start is dropped, and every
    entry whose process would start is tracked.  The [j]-th entry is the
    one whose process would be the [j]-th to be made. *)
Definition recovery_isolates_failures (env : Env) (file : File) : Prop :=
  forall j k v,
    nth_error (entries (snapshot_of file)) j = Some (k, v) ->
    (spawn_ok env j = true ->
       Dict.mem k (processes (boot env file)) = true) /\
    (spawn_ok env j = false ->
       Dict.mem k (entries (tokens (boot env file))) = false).

(* ===================================================================== *)
(** * The validation of a token and the stop keyboard *)
(* ===================================================================== *)

(** What the request [session.get(url)] of [validate_token] ends with:
    it raises, or it returns a response with a status and a body.  [body]
    is what [await response.json()] returns, [None] when that raises. *)
Inductive HttpOutcome : Type :=
| TransportError (e : Exn)
| Response (status : nat) (body : option pyval).

(** The body of the [try] of [validate_token]. *)
Definition validate_response (o : HttpOutcome) : result pyval :=
  match o with
  | TransportError e => Raise e
  | Response status body =>
      if Nat.eqb status 200 then
        match body with
        | None => Raise JSONDecodeError
        | Some (PDict d) =>
            Ok (match Dict.get "ok" d with Some v => v | None => PBool false end)
        | Some _ => Raise AttributeError
        end
      else Ok (PBool false)
  end.

(** [validate_token]: what it returns and, when it logs
    "Error validating token: {e}", the exception [e].  It touches neither
    the registry nor the file. *)
Definition validate_token (o : HttpOutcome) : pyval * option Exn :=
  match validate_response o with
  | Ok v => (v, None)
  | Raise e => (PBool false, Some e)
  end.

Section Truth.
(** Whether the number with a given literal is zero: that is for the
    arithmetic of Python to say and stays open here. *)
Variable number_is_zero : string -> bool.

(** [bool(v)], the test of [if not v] *)
Definition py_truthy (v : pyval) : bool :=
  match v with
  | PNone => false
  | PBool b => b
  | PNum literal => negb (number_is_zero literal)
  | PStr s => match s with EmptyString => false | _ => true end
  | PList l => match l with [] => false | _ => true end
  | PDict d => match d with [] => false | _ => true end
  end.

(** The handler of a text message from its first line: [tok] is
    [message.text.strip()], [o] what the request of [validate_token] ends
    with and [now] what [datetime.now()] returns when it is reached. *)
Definition handle_text_message (env : Env) (tok : string) (o : HttpOutcome)
  (now : datetime) : M Reply :=
  handle_token env tok (py_truthy (fst (validate_token o))) now.

End Truth.

(** A [str] of Python is a sequence of code points; here it is the
    sequence of the bytes of its UTF-8 encoding.  A code point is one
    byte that is not of the form [10xxxxxx], followed by its continuation
    bytes, which are of that form. *)
Definition is_continuation (c : ascii) : bool :=
  match c with
  | Ascii _ _ _ _ _ _ b6 b7 => b7 && negb b6
  end.

(** [s[:n]]: the first [n] code points of [s], all of [s] if it has
    fewer. *)
Fixpoint py_slice_to (n : nat) (s : string) : string :=
  match s with
  | EmptyString => EmptyString
  | String c r =>
      if is_continuation c then String c (py_slice_to n r)
      else match n with
           | O => EmptyString
           | S n' => String c (py_slice_to n' r)
           end
  end.

(** [InlineKeyboardButton(text=..., callback_data=...)] *)
Record InlineKeyboardButton : Type := mkButton {
  text : string;
  callback_data : string
}.

(** [get_main_keyboard()] *)
Definition get_main_keyboard : list (list InlineKeyboardButton) :=
  [ [mkButton "🤖 Захостить бота" "host_bot"];
    [mkButton "📊 Статистика" "stats"];
    [mkButton "🛑 Остановить бота" "stop_bot"] ].

(** [callback.message.edit_text(new_text, reply_markup=...)] *)
Record EditText : Type := mkEditText {
  new_text : string;
  reply_markup : list (list InlineKeyboardButton)
}.

(** The button of [stop_bot_callback] for one bot. *)
Definition stop_button (id : string) : InlineKeyboardButton :=
  mkButton ("🛑 Остановить " ++ py_slice_to 8 id) ("stop_" ++ id).

(** [stop_bot_callback] of the main bot *)
Definition stop_bot_callback : M EditText :=
  procs <- gets processes ;;
  match procs with
  | [] =>
      ret (mkEditText "❌ Нет запущенных ботов для остановки."
                      get_main_keyboard)
  | _ =>
      ret (mkEditText "Выберите бота для остановки:"
             (map (fun id => [stop_button id]) (Dict.keys procs)
              ++ [[mkButton "◀️ Назад" "back"]]))
  end.

(** The handlers that [main] registers for callback queries, in the
    order of their registration. *)
Inductive CallbackHandler : Type :=
| host_bot_callback_handler
| stats_callback_handler
| stop_bot_callback_handler
| stop_specific_bot_handler
| back_callback_handler.

Definition callback_handlers : list CallbackHandler :=
  [ host_bot_callback_handler; stats_callback_handler;
    stop_bot_callback_handler; stop_specific_bot_handler;
    back_callback_handler ].

(** The filter of a handler: [F.data == ...], and
    [F.data.startswith("stop_")] for [stop_specific_bot]. *)
Definition callback_filter (h : CallbackHandler) (data : string) : bool :=
  match h with
  | host_bot_callback_handler => String.eqb data "host_bot"
  | stats_callback_handler => String.eqb data "stats"
  | stop_bot_callback_handler => String.eqb data "stop_bot"
  | stop_specific_bot_handler => String.prefix "stop_" data
  | back_callback_handler => String.eqb data "back"
  end.

(** The dispatcher gives a callback query to the first registered handler
    whose filter accepts its data, and to none if no filter does. *)
Definition route_callback (data : string) : option CallbackHandler :=
  find (fun h => callback_filter h data) callback_handlers.

(** An operation that cannot take away or replace the record of [id]: a
    message that is not handled in the second in which [id] was minted,
    a press on the stop button of another bot, the removal of another
    bot, the exit of a child. *)
Definition spares (id : string) (op : Op) : Prop :=
  match op with
  | OpHandleToken _ _ now => mint_bot_id now <> id
  | OpStopSpecific data => replace_stop_ data <> id
  | OpStopAll => False
  | OpRemoveBot id' => id' <> id
  | OpChildExit _ => True
  end.

(** ** Further invariants *)

(** The keys of [processes] are distinct, and every tracked process
    carries the bot_id it is stored under and has its token stored under
    that bot_id in [tokens]. *)
Definition records_ok (w : World) : Prop :=
  NoDup (Dict.keys (processes w)) /\
  forall k p, In (k, p) (processes w) ->
    bot_id p = k /\ In (k, token p) (entries (tokens w)).

(** The process [q] belongs to no tracked record. *)
Definition untracked (q : nat) (w : World) : Prop :=
  forall k p, In (k, p) (processes w) -> pid p <> q.

(** A string without the letter [s]; it has no ["stop_"] in it. *)
Fixpoint no_s (s : string) : bool :=
  match s with
  | EmptyString => true
  | String c r => negb (Ascii.eqb c "s") && no_s r
  end.

(** The clock shows a date and a time of day: the year has at most four
    digits and the other fields at most two. *)
Definition clock_ok (now : datetime) : Prop :=
  year now < 100 * 100 /\ month now < 100 /\ day now < 100 /\
  hour now < 100 /\ minute now < 100 /\ second now < 100.

(** ** Further inputs of the examples *)

(** No write succeeds: [open] fails. *)
Definition env_read_only : Env :=
  mkEnv (fun _ => true) (fun _ => true) (fun _ => OpenFailed).

(** A file whose tokens are a list. *)
Definition list_of_tokens : File :=
  Content (PDict [("tokens", PList [PStr "tokA"; PStr "tokB"])]).

(** A file that names a bot ["stop_1"]. *)
Definition bot_named_stop_1 : File :=
  Content (PDict [("tokens", PDict [("stop_1", PStr "tokA")])]).

(* ===================================================================== *)
(** * Facts about dictionaries *)
(* ===================================================================== *)

Module DictFacts.
Section Facts.
Variable V : Type.
Implicit Types (d : Dict.t V) (k : string) (v : V).

Lemma get_set_eq k v d : Dict.get k (Dict.set k v d) = Some v.
Proof.
  induction d as [|[k' v'] r IH]; simpl.
  - now rewrite String.eqb_refl.
  - destruct (String.eqb k' k) eqn:E; simpl.
    + now rewrite String.eqb_refl.
    + now rewrite E.
Qed.

Lemma get_set_ne k k' v d :
  k <> k' -> Dict.get k' (Dict.set k v d) = Dict.get k' d.
Proof.
  intros Hne. induction d as [|[k0 v0] r IH]; simpl.
  - apply String.eqb_neq in Hne. now rewrite Hne.
  - destruct (String.eqb k0 k) eqn:E; simpl.
    + apply String.eqb_eq in E. subst k0.
      apply String.eqb_neq in Hne. now rewrite Hne.
    + now rewrite IH.
Qed.

Lemma get_del_eq k d : Dict.get k (Dict.del k d) = None.
Proof.
  induction d as [|[k' v'] r IH]; simpl; [reflexivity|].
  destruct (String.eqb k' k) eqn:E; simpl; [assumption|].
  now rewrite E.
Qed.

Lemma get_del_ne k k' d :
  k <> k' -> Dict.get k' (Dict.del k d) = Dict.get k' d.
Proof.
  intros Hne. induction d as [|[k0 v0] r IH]; simpl; [reflexivity|].
  destruct (String.eqb k0 k) eqn:E; simpl.
  - apply String.eqb_eq in E. subst k0.
    apply String.eqb_neq in Hne. now rewrite Hne.
  - now rewrite IH.
Qed.

Lemma del_absent k d : Dict.get k d = None -> Dict.del k d = d.
Proof.
  induction d as [|[k' v'] r IH]; simpl; [reflexivity|].
  destruct (String.eqb k' k); [discriminate|].
  intros H. now rewrite IH.
Qed.

Lemma mem_get k d : Dict.mem k d = false <-> Dict.get k d = None.
Proof. unfold Dict.mem. destruct (Dict.get k d); split; congruence. Qed.

Lemma mem_keys k d : Dict.mem k d = true <-> In k (Dict.keys d).
Proof.
  unfold Dict.mem.
  induction d as [|[k' v'] r IH]; simpl.
  - split; [discriminate | tauto].
  - destruct (String.eqb k' k) eqn:E.
    + apply String.eqb_eq in E. tauto.
    + apply String.eqb_neq in E. rewrite IH. tauto.
Qed.

Lemma length_set_le k v d : List.length (Dict.set k v d) <= S (List.length d).
Proof.
  induction d as [|[k' v'] r IH]; simpl; [lia|].
  destruct (String.eqb k' k); simpl; lia.
Qed.

Lemma length_del_le k d : List.length (Dict.del k d) <= List.length d.
Proof.
  induction d as [|[k' v'] r IH]; simpl; [lia|].
  destruct (String.eqb k' k); simpl; lia.
Qed.

Lemma In_values_set x k v d :
  In x (Dict.values (Dict.set k v d)) -> x = v \/ In x (Dict.values d).
Proof.
  induction d as [|[k' v'] r IH]; simpl.
  - intros [H|[]]; auto.
  - destruct (String.eqb k' k); simpl; intros [H|H]; auto.
    destruct (IH H); auto.
Qed.

Lemma In_values_del x k d :
  In x (Dict.values (Dict.del k d)) -> In x (Dict.values d).
Proof.
  induction d as [|[k' v'] r IH]; simpl; [tauto|].
  destruct (String.eqb k' k); simpl; intros H; [auto|].
  destruct H; auto.
Qed.

Lemma NoDup_values_set k v d :
  NoDup (Dict.values d) -> ~ In v (Dict.values d) ->
  NoDup (Dict.values (Dict.set k v d)).
Proof.
  induction d as [|[k' v'] r IH]; simpl; intros Hnd Hin.
  - constructor; [auto | constructor].
  - inversion Hnd as [|? ? Hv' Hr]; subst.
    destruct (String.eqb k' k); simpl.
    + constructor; [tauto | assumption].
    + constructor.
      * intros H. apply In_values_set in H. destruct H; [subst|]; tauto.
      * apply IH; tauto.
Qed.

Lemma NoDup_values_del k d :
  NoDup (Dict.values d) -> NoDup (Dict.values (Dict.del k d)).
Proof.
  induction d as [|[k' v'] r IH]; simpl; intros Hnd; [constructor|].
  inversion Hnd as [|? ? Hv' Hr]; subst.
  destruct (String.eqb k' k); simpl; [auto|].
  constructor; [|auto].
  intros H. apply In_values_del in H. tauto.
Qed.

Lemma In_set k v d x :
  In x (Dict.set k v d) -> x = (k, v) \/ In x d.
Proof.
  induction d as [|[k' v'] r IH]; simpl.
  - intros [H|[]]; auto.
  - destruct (String.eqb k' k); simpl; intros [H|H]; auto.
    destruct (IH H); auto.
Qed.

Lemma In_del k d x : In x (Dict.del k d) -> In x d.
Proof.
  induction d as [|[k' v'] r IH]; simpl; [tauto|].
  destruct (String.eqb k' k); simpl; intros H; [auto|].
  destruct H; auto.
Qed.

Lemma set_fresh k v d :
  Dict.get k d = None -> Dict.set k v d = d ++ [(k, v)].
Proof.
  induction d as [|[k' v'] r IH]; simpl; [reflexivity|].
  destruct (String.eqb k' k); [discriminate|].
  intros H. now rewrite IH.
Qed.
End Facts.

Section Map.
Variables (A B : Type) (f : A -> B).

Lemma map_values_set k v d :
  Dict.map_values f (Dict.set k v d) = Dict.set k (f v) (Dict.map_values f d).
Proof.
  induction d as [|[k' v'] r IH]; simpl; [reflexivity|].
  destruct (String.eqb k' k); simpl; [reflexivity|].
  now rewrite <- IH.
Qed.

Lemma map_values_del k d :
  Dict.map_values f (Dict.del k d) = Dict.del k (Dict.map_values f d).
Proof.
  induction d as [|[k' v'] r IH]; simpl; [reflexivity|].
  destruct (String.eqb k' k); simpl; [assumption|].
  now rewrite <- IH.
Qed.

Lemma values_map_values d :
  Dict.values (Dict.map_values f d) = map f (Dict.values d).
Proof.
  unfold Dict.values, Dict.map_values. rewrite !map_map. reflexivity.
Qed.

Lemma length_map_values d : List.length (Dict.map_values f d) = List.length d.
Proof. apply List.length_map. Qed.
End Map.
End DictFacts.

(* ===================================================================== *)
(** * Facts about the operations *)
(* ===================================================================== *)

Unset Implicit Arguments.

Ltac munfold :=
  unfold logger_info, logger_error in *;
  unfold bind, ret, raise, gets, modify, try_except in *.

Ltac wsimpl :=
  unfold emit, with_processes, with_tokens, with_disk, with_alive,
    with_next_pid, with_writes; simpl.
Ltac ex_world :=
  match goal with
  | |- exists w', (_, ?W) = _ /\ _ => exists W; split; [reflexivity|]
  end.
Arguments mint_bot_id : simpl never.
Section OpFacts.
Variable env : Env.

Lemma save_bots_spec w :
  exists w', save_bots env w = (Ok tt, w') /\
    processes w' = processes w /\ tokens w' = tokens w /\
    alive w' = alive w /\ next_pid w' = next_pid w /\
    writes w' = S (writes w) /\
    disk w' = disk_after (write_outcome env (writes w))
                         (PDict [("tokens", tokens w)]) (disk w).
Proof.
  unfold save_bots, json_dump_file, disk_after. munfold.
  destruct (write_outcome env (writes w)); simpl;
    eexists; (split; [reflexivity|]); simpl; auto 10.
Qed.

Lemma remove_bot_eq id : remove_bot env id = (untrack env id ;; unpersist env id).
Proof. reflexivity. Qed.

Lemma untrack_spec id w :
  exists w', untrack env id w = (Ok tt, w') /\
    processes w' = Dict.del id (processes w) /\
    tokens w' = tokens w /\ disk w' = disk w /\ writes w' = writes w /\
    next_pid w' = next_pid w /\
    alive w' = match Dict.get id (processes w) with
               | Some p => alive_after_stop env (pid p) (alive w)
               | None => alive w
               end.
Proof.
  unfold untrack, alive_after_stop. munfold.
  destruct (Dict.get id (processes w)) as [p|] eqn:G.
  - unfold is_alive, terminate, join. munfold.
    destruct (existsb _ _); simpl.
    + destruct (exits_on_term env (pid p)); simpl;
        eexists; (split; [reflexivity|]); simpl; auto 10.
    + eexists; (split; [reflexivity|]); simpl; auto 10.
  - eexists; (split; [reflexivity|]).
    rewrite DictFacts.del_absent by assumption. auto 10.
Qed.

Lemma unpersist_dict id w d :
  tokens w = PDict d ->
  exists w', unpersist env id w = (Ok tt, w') /\
    processes w' = processes w /\
    tokens w' = PDict (Dict.del id d) /\
    alive w' = alive w /\ next_pid w' = next_pid w /\
    (Dict.mem id d = true ->
       writes w' = S (writes w) /\
       disk w' = disk_after (write_outcome env (writes w))
                   (PDict [("tokens", PDict (Dict.del id d))]) (disk w)) /\
    (Dict.mem id d = false -> w' = w).
Proof.
  intros Ht. unfold unpersist. munfold. rewrite Ht. simpl.
  destruct (Dict.mem id d) eqn:Hm.
  - destruct (save_bots_spec (with_tokens (PDict (Dict.del id d)) w))
      as (w' & E & Hp & Htk & Ha & Hn & Hw & Hd).
    exists w'. rewrite E. simpl in *. repeat split; auto; discriminate.
  - exists w. apply DictFacts.mem_get in Hm.
    rewrite DictFacts.del_absent by assumption.
    repeat split; auto; discriminate.
Qed.

Lemma remove_bot_dict id w d :
  tokens w = PDict d ->
  exists w', remove_bot env id w = (Ok tt, w') /\
    processes w' = Dict.del id (processes w) /\
    tokens w' = PDict (Dict.del id d) /\
    next_pid w' = next_pid w /\
    alive w' = match Dict.get id (processes w) with
               | Some p => alive_after_stop env (pid p) (alive w)
               | None => alive w
               end /\
    (Dict.mem id d = true ->
       writes w' = S (writes w) /\
       disk w' = disk_after (write_outcome env (writes w))
                   (PDict [("tokens", PDict (Dict.del id d))]) (disk w)) /\
    (Dict.mem id d = false -> writes w' = writes w /\ disk w' = disk w).
Proof.
  intros Ht. rewrite remove_bot_eq. unfold bind at 1.
  destruct (untrack_spec id w) as (w1 & E1 & Hp1 & Ht1 & Hd1 & Hw1 & Hn1 & Ha1).
  rewrite E1.
  destruct (unpersist_dict id w1 d) as (w2 & E2 & Hp2 & Ht2 & Ha2 & Hn2 & Hy & Hno).
  { congruence. }
  exists w2. rewrite E2. repeat split; try congruence.
  - destruct (Hy H); congruence.
  - destruct (Hy H); congruence.
  - rewrite (Hno H). congruence.
  - rewrite (Hno H). congruence.
Qed.

Lemma is_token_used_dict tok w d :
  tokens w = PDict d ->
  is_token_used tok w = (Ok (existsb (str_eq_val tok) (Dict.values d)), w).
Proof. intros Ht. unfold is_token_used. munfold. rewrite Ht. reflexivity. Qed.

Lemma is_token_used_other tok w :
  (forall d, tokens w <> PDict d) ->
  is_token_used tok w = (Raise AttributeError, w).
Proof.
  intros Ht. unfold is_token_used. munfold.
  destruct (tokens w); try reflexivity. now destruct (Ht d).
Qed.

Lemma handle_token_invalid tok now w :
  handle_token env tok false now w = (Ok InvalidCredential, w).
Proof. reflexivity. Qed.

Lemma handle_token_duplicate tok now w d :
  tokens w = PDict d ->
  existsb (str_eq_val tok) (Dict.values d) = true ->
  handle_token env tok true now w = (Ok DuplicateCredential, w).
Proof.
  intros Ht Hu. unfold handle_token. cbn [negb]. unfold bind at 1.
  rewrite (is_token_used_dict tok w d Ht), Hu. reflexivity.
Qed.

Lemma handle_token_full tok now w d :
  tokens w = PDict d ->
  existsb (str_eq_val tok) (Dict.values d) = false ->
  MAX_BOTS <= List.length (processes w) ->
  handle_token env tok true now w = (Ok CapacityExceeded, w).
Proof.
  intros Ht Hu Hn. unfold handle_token. cbn [negb]. unfold bind at 1.
  rewrite (is_token_used_dict tok w d Ht), Hu.
  unfold get_bot_count. munfold. cbv beta iota.
  apply Nat.leb_le in Hn. rewrite Hn. reflexivity.
Qed.

Lemma handle_token_spawn_fails tok now w d :
  tokens w = PDict d ->
  existsb (str_eq_val tok) (Dict.values d) = false ->
  List.length (processes w) < MAX_BOTS ->
  spawn_ok env (next_pid w) = false ->
  exists w', handle_token env tok true now w = (Raise OSError, w') /\
    processes w' = processes w /\ tokens w' = tokens w /\
    disk w' = disk w /\ alive w' = alive w /\ writes w' = writes w /\
    next_pid w' = S (next_pid w).
Proof.
  intros Ht Hu Hn Hs. unfold handle_token. cbn [negb]. unfold bind at 1.
  rewrite (is_token_used_dict tok w d Ht), Hu.
  unfold get_bot_count, BotProcess_init, start. munfold. cbv beta iota.
  apply Nat.leb_gt in Hn. rewrite Hn. simpl. rewrite Hs.
  eexists; (split; [reflexivity|]); simpl; auto 10.
Qed.

Lemma handle_token_started tok now w d :
  tokens w = PDict d ->
  existsb (str_eq_val tok) (Dict.values d) = false ->
  List.length (processes w) < MAX_BOTS ->
  spawn_ok env (next_pid w) = true ->
  exists w',
    handle_token env tok true now w
      = (Ok (Started (mint_bot_id now) (List.length (processes w'))), w') /\
    processes w'
      = Dict.set (mint_bot_id now)
          (mkBotProcess (PStr tok) (mint_bot_id now) (next_pid w))
          (processes w) /\
    tokens w' = PDict (Dict.set (mint_bot_id now) (PStr tok) d) /\
    alive w' = next_pid w :: alive w /\
    next_pid w' = S (next_pid w) /\
    writes w' = S (writes w) /\
    disk w' = disk_after (write_outcome env (writes w))
                (PDict [("tokens", tokens w')]) (disk w).
Proof.
  intros Ht Hu Hn Hs. unfold handle_token. cbn [negb]. unfold bind at 1.
  rewrite (is_token_used_dict tok w d Ht), Hu.
  unfold get_bot_count, BotProcess_init, start, add_bot, save_bots,
    json_dump_file, disk_after.
  munfold. cbv beta iota.
  apply Nat.leb_gt in Hn. rewrite Hn. wsimpl. rewrite Hs. wsimpl. rewrite Ht. wsimpl.
  destruct (write_outcome env (writes w)); simpl;
    ex_world; simpl; auto 10.
Qed.

Lemma handle_token_other tok valid now w :
  (forall d, tokens w <> PDict d) ->
  snd (handle_token env tok valid now w) = w.
Proof.
  intros Ht. destruct valid; [|reflexivity].
  unfold handle_token. cbn [negb]. unfold bind at 1.
  now rewrite (is_token_used_other tok w Ht).
Qed.

(** ** Loops *)

Lemma for_each_inv (A : Type) (P : World -> Prop) (body : A -> M unit) l :
  (forall x w, P w -> P (snd (body x w))) ->
  forall w, P w -> P (snd (for_each l body w)).
Proof.
  intros Hb. induction l as [|x r IH]; intros w Hw; simpl; [assumption|].
  unfold bind. specialize (Hb x w Hw).
  destruct (body x w) as [[[]|e] w1]; simpl in *; auto.
Qed.

Lemma for_each_remove_dict ids : forall w d,
  tokens w = PDict d ->
  exists w', for_each ids (remove_bot env) w = (Ok tt, w') /\
    processes w' = Dict.del_all ids (processes w) /\
    tokens w' = PDict (Dict.del_all ids d).
Proof.
  induction ids as [|id r IH]; intros w d Ht; simpl.
  - exists w. auto.
  - unfold bind.
    destruct (remove_bot_dict id w d Ht) as (w1 & E & Hp & Htk & _).
    rewrite E. destruct (IH w1 _ Htk) as (w2 & E2 & Hp2 & Ht2).
    exists w2. rewrite E2, Hp2, Ht2, Hp. auto.
Qed.

Lemma In_keys_del (V : Type) k k' (d : Dict.t V) :
  In k' (Dict.keys (Dict.del k d)) <-> k' <> k /\ In k' (Dict.keys d).
Proof.
  induction d as [|[k0 v0] r IH]; simpl; [tauto|].
  destruct (String.eqb k0 k) eqn:E.
  - apply String.eqb_eq in E. subst k0. rewrite IH. simpl.
    intuition congruence.
  - apply String.eqb_neq in E. simpl. rewrite IH.
    intuition congruence.
Qed.

Lemma In_keys_set (V : Type) k k' v (d : Dict.t V) :
  In k' (Dict.keys (Dict.set k v d)) <-> k' = k \/ In k' (Dict.keys d).
Proof.
  induction d as [|[k0 v0] r IH]; simpl; [intuition congruence|].
  destruct (String.eqb k0 k) eqn:E.
  - apply String.eqb_eq in E. subst k0. simpl. intuition congruence.
  - simpl. rewrite IH. intuition congruence.
Qed.

Lemma del_all_covered (V : Type) ids : forall (d : Dict.t V),
  (forall k, In k (Dict.keys d) -> In k ids) -> Dict.del_all ids d = [].
Proof.
  induction ids as [|id r IH]; intros d Hk; simpl.
  - destruct d as [|[k v] d]; [reflexivity|].
    destruct (Hk k); simpl; auto.
  - apply IH. intros k Hin. apply In_keys_del in Hin. destruct Hin as [Hne Hin].
    destruct (Hk k Hin); [congruence | assumption].
Qed.

Lemma stop_all_bots_dict w d :
  tokens w = PDict d ->
  exists w', stop_all_bots env w = (Ok tt, w') /\
    processes w' = [] /\
    tokens w' = PDict (Dict.del_all (Dict.keys (processes w)) d).
Proof.
  intros Ht. unfold stop_all_bots. munfold.
  destruct (for_each_remove_dict (Dict.keys (processes w)) w d Ht)
    as (w1 & E & Hp & Htk).
  rewrite E. cbv beta iota. ex_world. wsimpl. split; [|assumption].
  rewrite Hp. apply del_all_covered. auto.
Qed.

Lemma stop_all_bots_empty w :
  processes w = [] -> stop_all_bots env w = (Ok tt, emit (Log INFO AllStopped) w).
Proof. intros H. unfold stop_all_bots. munfold. rewrite H. reflexivity. Qed.

(** ** Recovery *)

Lemma restart_ok it w :
  spawn_ok env (next_pid w) = true ->
  exists w', restart env it w = (Ok tt, w') /\
    processes w'
      = Dict.set (fst it) (mkBotProcess (snd it) (fst it) (next_pid w))
                 (processes w) /\
    tokens w' = tokens w /\ disk w' = disk w /\ writes w' = writes w /\
    alive w' = next_pid w :: alive w /\ next_pid w' = S (next_pid w).
Proof.
  intros Hs. unfold restart, BotProcess_init, start. munfold. wsimpl.
  rewrite Hs. ex_world. simpl. auto 10.
Qed.

Lemma restart_fails it w :
  spawn_ok env (next_pid w) = false ->
  exists w', restart env it w = (Raise OSError, w') /\
    processes w' = processes w /\
    tokens w' = tokens w /\ disk w' = disk w /\ writes w' = writes w /\
    alive w' = alive w /\ next_pid w' = S (next_pid w).
Proof.
  intros Hs. unfold restart, BotProcess_init, start. munfold. wsimpl.
  rewrite Hs. ex_world. simpl. auto 10.
Qed.

Lemma restart_any it w :
  let w' := snd (restart env it w) in
  tokens w' = tokens w /\ disk w' = disk w /\ writes w' = writes w /\
  (processes w' = processes w \/
   processes w'
     = Dict.set (fst it) (mkBotProcess (snd it) (fst it) (next_pid w))
                (processes w)).
Proof.
  destruct (spawn_ok env (next_pid w)) eqn:Hs.
  - destruct (restart_ok it w Hs) as (w' & E & Hp & Ht & Hd & Hw & _).
    rewrite E. simpl. auto.
  - destruct (restart_fails it w Hs) as (w' & E & Hp & Ht & Hd & Hw & _).
    rewrite E. simpl. auto.
Qed.

Lemma get_None_keys (V : Type) k (d : Dict.t V) :
  ~ In k (Dict.keys d) -> Dict.get k d = None.
Proof.
  intros H. apply DictFacts.mem_get.
  destruct (Dict.mem k d) eqn:E; [|reflexivity].
  apply DictFacts.mem_keys in E. contradiction.
Qed.




Lemma restart_loop_fails items : forall w i,
  i < List.length items ->
  (forall j, j < i -> spawn_ok env (next_pid w + j) = true) ->
  spawn_ok env (next_pid w + i) = false ->
  NoDup (Dict.keys items) ->
  (forall k, In k (Dict.keys items) -> ~ In k (Dict.keys (processes w))) ->
  exists w', for_each items (restart env) w = (Raise OSError, w') /\
    processes w' = (processes w ++ respawned (next_pid w) (firstn i items))%list /\
    tokens w' = tokens w /\ disk w' = disk w /\ writes w' = writes w.
Proof.
  induction items as [|[k v] r IH]; intros w i Hi Hs Hf Hnd Hfresh; simpl in *.
  - lia.
  - unfold bind. destruct i as [|i].
    + rewrite Nat.add_0_r in Hf.
      destruct (restart_fails (k, v) w Hf) as (w1 & E & Hp & Ht & Hd & Hw & _).
      rewrite E. exists w1. simpl. rewrite app_nil_r. auto.
    + destruct (restart_ok (k, v) w) as (w1 & E & Hp & Ht & Hd & Hw & Ha & Hn).
      { rewrite <- (Nat.add_0_r (next_pid w)). apply Hs. lia. }
      rewrite E. simpl in Hp. inversion Hnd as [|? ? Hk Hr]; subst.
      rewrite DictFacts.set_fresh in Hp
        by (apply get_None_keys, Hfresh; simpl; auto).
      destruct (IH w1 i) as (w2 & E2 & Hp2 & Ht2 & Hd2 & Hw2).
      * lia.
      * intros j Hj. rewrite Hn. replace (S (next_pid w) + j)
          with (next_pid w + S j) by lia. apply Hs. lia.
      * rewrite Hn. replace (S (next_pid w) + i)
          with (next_pid w + S i) by lia. assumption.
      * assumption.
      * intros k' Hin. rewrite Hp. unfold Dict.keys.
        rewrite map_app, in_app_iff.
        simpl. intros [H|[H|[]]].
        -- apply (Hfresh k'); simpl; auto.
        -- subst k'. contradiction.
      * exists w2. rewrite E2. split; [reflexivity|].
        rewrite Hp2, Hp, Hn, <- app_assoc. simpl.
        repeat split; congruence.
Qed.

Lemma restart_loop_any items : forall w,
  let w' := snd (for_each items (restart env) w) in
  tokens w' = tokens w /\ disk w' = disk w /\ writes w' = writes w /\
  (forall k p, In (k, p) (processes w') ->
     In (k, p) (processes w) \/ (bot_id p = k /\ In (k, token p) items)).
Proof.
  induction items as [|[k v] r IH]; intros w; simpl.
  - auto.
  - unfold bind.
    pose proof (restart_any (k, v) w) as H. simpl in H.
    destruct (restart env (k, v) w) as [[[]|e] w1]; simpl in *.
    + destruct H as (Ht & Hd & Hw & Hp).
      destruct (IH w1) as (Ht2 & Hd2 & Hw2 & Hp2).
      repeat split; try congruence.
      intros k' p Hin. destruct (Hp2 k' p Hin) as [H1|[H1 H2]]; [|auto].
      destruct Hp as [Hp|Hp]; rewrite Hp in H1; [auto|].
      apply DictFacts.In_set in H1. destruct H1 as [H1|H1]; [|auto].
      inversion H1; subst. simpl. auto.
    + destruct H as (Ht & Hd & Hw & Hp).
      repeat split; try congruence.
      intros k' p Hin. destruct Hp as [Hp|Hp]; rewrite Hp in Hin; [auto|].
      apply DictFacts.In_set in Hin. destruct Hin as [H1|H1]; [|auto].
      inversion H1; subst. simpl. auto.
Qed.

Lemma restart_loop_keys items : forall w,
  (forall j, j < List.length items -> spawn_ok env (next_pid w + j) = true) ->
  exists w', for_each items (restart env) w = (Ok tt, w') /\
    forall k, In k (Dict.keys (processes w)) \/ In k (Dict.keys items) ->
              In k (Dict.keys (processes w')).
Proof.
  induction items as [|[k v] r IH]; intros w Hs; simpl.
  - exists w. split; [reflexivity|]. tauto.
  - unfold bind.
    destruct (restart_ok (k, v) w) as (w1 & E & Hp & Ht & Hd & Hw & Ha & Hn).
    { rewrite <- (Nat.add_0_r (next_pid w)). apply Hs. simpl. lia. }
    rewrite E. destruct (IH w1) as (w2 & E2 & Hk).
    + intros j Hj. rewrite Hn. replace (S (next_pid w) + j)
        with (next_pid w + S j) by lia. apply Hs. simpl. lia.
    + exists w2. split; [assumption|].
      intros k' Hin. apply Hk. rewrite Hp. simpl.
      rewrite In_keys_set. intuition.
Qed.

End OpFacts.

Section BootFacts.
Variable env : Env.

Lemma BotManager_init_valid file items :
  snapshot_items file = Some items ->
  BotManager_init env (fresh file)
  = try_except (for_each items (restart env))
               (fun e => logger_error (ErrorLoading e))
               (loaded file items).
Proof.
  unfold snapshot_items. intros H.
  destruct file as [| |[| | | | |data]]; try discriminate.
  destruct (Dict.get "tokens" data) as [[| | | | |d]|] eqn:G;
    try discriminate; inversion H; subst;
    unfold BotManager_init, load_saved_bots, loaded, os_path_exists,
      json_load_file, py_get, bind at 1 2 3 4 5; simpl;
    unfold try_except, bind; simpl; rewrite G; reflexivity.
Qed.

Lemma BotManager_init_corrupt file :
  snapshot_items file = None ->
  exists w, BotManager_init env (fresh file) = (Ok tt, w) /\
    processes w = [] /\ tokens w = snapshot_of file /\ disk w = file /\
    writes w = 0 /\ alive w = [].
Proof.
  unfold snapshot_items, snapshot_of. intros H.
  unfold BotManager_init, load_saved_bots, os_path_exists, json_load_file,
    py_get.
  munfold.
  destruct file as [| |[| | | | |data]]; wsimpl;
    try (ex_world; simpl; auto 10).
  destruct (Dict.get "tokens" data) as [[| | | | |d]|]; try discriminate;
    wsimpl; ex_world; simpl; auto 10.
Qed.

Lemma boot_valid file items :
  snapshot_items file = Some items ->
  let w := boot env file in
  fst (BotManager_init env (fresh file)) = Ok tt /\
  tokens w = PDict items /\ disk w = file /\ writes w = 0 /\
  (forall k p, In (k, p) (processes w) ->
     bot_id p = k /\ In (k, token p) items).
Proof.
  intros H. unfold boot. rewrite (BotManager_init_valid file items H).
  pose proof (restart_loop_any env items (loaded file items)) as L.
  simpl in L. destruct L as (Ht & Hd & Hw & Hp).
  unfold try_except.
  destruct (for_each items (restart env) (loaded file items)) as [[[]|e] w1];
    simpl in *; (split; [reflexivity|]); (split; [assumption|]);
    (split; [assumption|]); (split; [assumption|]);
    intros k p Hin; destruct (Hp k p Hin) as [[]|]; auto.
Qed.

Lemma snapshot_items_some file items :
  snapshot_items file = Some items -> snapshot_of file = PDict items.
Proof.
  unfold snapshot_items, snapshot_of.
  destruct file as [| |[| | | | |data]]; try discriminate.
  destruct (Dict.get "tokens" data) as [[| | | | |d]|]; try discriminate;
    congruence.
Qed.

Lemma snapshot_items_none file :
  snapshot_items file = None -> entries (snapshot_of file) = [].
Proof.
  unfold snapshot_items, snapshot_of.
  destruct file as [| |[| | | | |data]]; try reflexivity.
  destruct (Dict.get "tokens" data) as [[| | | | |d]|]; try discriminate;
    reflexivity.
Qed.

Lemma boot_returns file : fst (BotManager_init env (fresh file)) = Ok tt.
Proof.
  destruct (snapshot_items file) as [items|] eqn:E.
  - apply (boot_valid file items E).
  - destruct (BotManager_init_corrupt file E) as (w & Ew & _).
    now rewrite Ew.
Qed.

Lemma boot_tokens file : tokens (boot env file) = snapshot_of file.
Proof.
  destruct (snapshot_items file) as [items|] eqn:E.
  - rewrite (snapshot_items_some file items E). apply (boot_valid file items E).
  - destruct (BotManager_init_corrupt file E) as (w & Ew & _ & Ht & _).
    unfold boot. now rewrite Ew.
Qed.

Lemma boot_disk file : disk (boot env file) = file /\ writes (boot env file) = 0.
Proof.
  destruct (snapshot_items file) as [items|] eqn:E.
  - split; apply (boot_valid file items E).
  - destruct (BotManager_init_corrupt file E) as (w & Ew & _ & _ & Hd & Hw & _).
    unfold boot. rewrite Ew. auto.
Qed.

Lemma boot_processes file k p :
  In (k, p) (processes (boot env file)) ->
  bot_id p = k /\ In (k, token p) (entries (snapshot_of file)).
Proof.
  destruct (snapshot_items file) as [items|] eqn:E.
  - rewrite (snapshot_items_some file items E). apply (boot_valid file items E).
  - destruct (BotManager_init_corrupt file E) as (w & Ew & Hp & _).
    unfold boot. rewrite Ew. simpl. rewrite Hp. intros [].
Qed.

End BootFacts.

Section TraceFacts.
Variable env : Env.

Lemma save_bots_trace w :
  trace (snd (save_bots env w))
  = save_events (write_outcome env (writes w)) ++ trace w.
Proof.
  unfold save_bots, json_dump_file, save_events. munfold.
  destruct (write_outcome env (writes w)); reflexivity.
Qed.

Lemma untrack_trace id w p :
  Dict.get id (processes w) = Some p ->
  trace (snd (untrack env id w))
  = stop_events id (pid p) (existsb (Nat.eqb (pid p)) (alive w)) ++ trace w.
Proof.
  intros G. unfold untrack, stop_events, is_alive, terminate, join.
  munfold. rewrite G.
  destruct (existsb _ _); [destruct (exits_on_term env (pid p))|];
    reflexivity.
Qed.

Lemma unpersist_trace id w d :
  tokens w = PDict d -> Dict.mem id d = true ->
  trace (snd (unpersist env id w))
  = save_events (write_outcome env (writes w)) ++ trace w.
Proof.
  intros Ht Hm. unfold unpersist. munfold. rewrite Ht. simpl. rewrite Hm.
  apply (save_bots_trace (with_tokens (PDict (Dict.del id d)) w)).
Qed.

Lemma remove_bot_trace id w p d :
  Dict.get id (processes w) = Some p ->
  tokens w = PDict d -> Dict.mem id d = true ->
  trace (snd (remove_bot env id w))
  = save_events (write_outcome env (writes w))
    ++ stop_events id (pid p) (existsb (Nat.eqb (pid p)) (alive w))
    ++ trace w.
Proof.
  intros G Ht Hm. rewrite remove_bot_eq. unfold bind at 1.
  pose proof (untrack_trace id w p G) as T.
  destruct (untrack_spec env id w) as (w1 & E1 & Hp1 & Ht1 & Hd1 & Hw1 & _).
  rewrite E1 in *. simpl in T.
  rewrite (unpersist_trace id w1 d) by congruence.
  now rewrite T, Hw1.
Qed.
End TraceFacts.

(** ** Every step keeps what the operations keep *)

Section StepFacts.
Variable env : Env.

Lemma unpersist_any id w :
  processes (snd (unpersist env id w)) = processes w /\
  alive (snd (unpersist env id w)) = alive w.
Proof.
  unfold unpersist, py_contains, py_delitem. munfold.
  destruct (tokens w) as [| | |s|l|d]; simpl; auto.
  - destruct (is_infix id s); simpl; auto.
  - destruct (existsb (str_eq_val id) l); simpl; auto.
  - destruct (Dict.mem id d); simpl; auto.
    destruct (save_bots_spec env (with_tokens (PDict (Dict.del id d)) w))
      as (w' & E & Hp & _ & Ha & _).
    rewrite E. simpl. auto.
Qed.

Lemma unpersist_untyped id w :
  (forall d, tokens w <> PDict d) -> snd (unpersist env id w) = w.
Proof.
  intros Ht. unfold unpersist, py_contains, py_delitem. munfold.
  destruct (tokens w) as [| | |s|l|d]; simpl; auto.
  - destruct (is_infix id s); reflexivity.
  - destruct (existsb (str_eq_val id) l); reflexivity.
  - now destruct (Ht d).
Qed.

Lemma remove_bot_processes id w :
  processes (snd (remove_bot env id w)) = Dict.del id (processes w).
Proof.
  rewrite remove_bot_eq. unfold bind at 1.
  destruct (untrack_spec env id w) as (w1 & E1 & Hp1 & _).
  rewrite E1. destruct (unpersist_any id w1) as [Hp _]. congruence.
Qed.

Lemma remove_bot_untyped id w :
  processes w = [] -> (forall d, tokens w <> PDict d) ->
  snd (remove_bot env id w) = w.
Proof.
  intros Hp Ht. rewrite remove_bot_eq. unfold bind at 1.
  unfold untrack at 1. munfold. rewrite Hp. simpl.
  apply unpersist_untyped. assumption.
Qed.

Lemma existsb_str_eq_val tok vs :
  existsb (str_eq_val tok) vs = false -> ~ In (PStr tok) vs.
Proof.
  intros H Hin. assert (existsb (str_eq_val tok) vs = true); [|congruence].
  apply existsb_exists. exists (PStr tok). split; [assumption|].
  simpl. apply String.eqb_refl.
Qed.

(** What [handle_token] does to a registry whose [tokens] is a [dict]:
    it leaves the registry and the file alone, or it adds one record. *)
Lemma handle_token_cases tok valid now w d :
  tokens w = PDict d ->
  let w' := snd (handle_token env tok valid now w) in
  (processes w' = processes w /\ tokens w' = tokens w /\
   disk w' = disk w /\ writes w' = writes w) \/
  (~ In (PStr tok) (Dict.values d) /\
   List.length (processes w) < MAX_BOTS /\
   processes w'
     = Dict.set (mint_bot_id now)
         (mkBotProcess (PStr tok) (mint_bot_id now) (next_pid w))
         (processes w) /\
   tokens w' = PDict (Dict.set (mint_bot_id now) (PStr tok) d) /\
   disk w' = disk_after (write_outcome env (writes w))
               (PDict [("tokens", tokens w')]) (disk w)).
Proof.
  intros Ht.
  destruct valid; [|left; rewrite handle_token_invalid; simpl; auto].
  destruct (existsb (str_eq_val tok) (Dict.values d)) eqn:Hu.
  { left. rewrite (handle_token_duplicate env tok now w d Ht Hu). simpl; auto. }
  destruct (Nat.le_gt_cases MAX_BOTS (List.length (processes w))) as [Hn|Hn].
  { left. rewrite (handle_token_full env tok now w d Ht Hu Hn). simpl; auto. }
  destruct (spawn_ok env (next_pid w)) eqn:Hs.
  - right.
    destruct (handle_token_started env tok now w d Ht Hu Hn Hs)
      as (w' & E & Hp & Htk & _ & _ & _ & Hd).
    rewrite E. simpl. split; [now apply existsb_str_eq_val|]. auto.
  - left.
    destruct (handle_token_spawn_fails env tok now w d Ht Hu Hn Hs)
      as (w' & E & Hp & Htk & Hd & _ & Hw & _).
    rewrite E. simpl. auto.
Qed.

Lemma stop_specific_bot_world data w :
  snd (stop_specific_bot env data w) = w \/
  snd (stop_specific_bot env data w)
    = snd (remove_bot env (replace_stop_ data) w).
Proof.
  unfold stop_specific_bot. munfold.
  destruct (Dict.mem _ _); [right|left; reflexivity].
  destruct (remove_bot env _ w) as [[[]|e] w1]; reflexivity.
Qed.

Lemma stop_all_command_world w :
  snd (stop_all_command env w) = snd (stop_all_bots env w).
Proof.
  unfold stop_all_command. munfold.
  destruct (stop_all_bots env w) as [[[]|e] w1]; reflexivity.
Qed.

Section Preservation.
Variable P : World -> Prop.
Hypothesis P_remove : forall id w, P w -> P (snd (remove_bot env id w)).
Hypothesis P_handle : forall tok valid now w,
  P w -> P (snd (handle_token env tok valid now w)).
Hypothesis P_emit : forall e w, P w -> P (emit e w).
Hypothesis P_alive : forall l w, P w -> P (with_alive l w).

Lemma stop_all_bots_preserves w : P w -> P (snd (stop_all_bots env w)).
Proof.
  intros Hw. unfold stop_all_bots. munfold.
  pose proof (for_each_inv string P (remove_bot env)
                (Dict.keys (processes w)) P_remove w Hw) as H.
  destruct (for_each _ _ w) as [[[]|e] w1]; simpl in *; auto.
Qed.

Lemma step_preserves op w : P w -> P (step env w op).
Proof.
  intros Hw. destruct op as [tok valid now|data| |id|p]; simpl.
  - now apply P_handle.
  - destruct (stop_specific_bot_world data w) as [E|E]; rewrite E; auto.
  - rewrite stop_all_command_world. now apply stop_all_bots_preserves.
  - now apply P_remove.
  - now apply P_alive.
Qed.

Lemma run_preserves ops : forall w, P w -> P (run env w ops).
Proof.
  induction ops as [|op r IH]; intros w Hw; simpl; [assumption|].
  apply IH. now apply step_preserves.
Qed.
End Preservation.

End StepFacts.

(** ** The registry invariants *)

Section Invariants.
Variable env : Env.

Lemma registry_ok_remove id w :
  registry_ok w -> registry_ok (snd (remove_bot env id w)).
Proof.
  intros (Ht & Hn & Hd). unfold registry_ok, credentials in *.
  destruct (remove_bot_dict env id w _ Ht) as (w' & E & Hp & Htk & _).
  rewrite E. simpl. rewrite Hp, Htk, DictFacts.map_values_del.
  split; [reflexivity|]. split.
  - pose proof (DictFacts.length_del_le id (processes w)). lia.
  - now apply DictFacts.NoDup_values_del.
Qed.

Lemma registry_ok_handle tok valid now w :
  registry_ok w -> registry_ok (snd (handle_token env tok valid now w)).
Proof.
  intros (Ht & Hn & Hd). unfold registry_ok, credentials in *.
  destruct (handle_token_cases env tok valid now w _ Ht)
    as [(Hp & Htk & _)|(Hu & Hlt & Hp & Htk & _)].
  - rewrite Hp, Htk. auto.
  - rewrite Hp, Htk, DictFacts.map_values_set. simpl.
    split; [reflexivity|]. split.
    + pose proof (DictFacts.length_set_le (mint_bot_id now)
        (mkBotProcess (PStr tok) (mint_bot_id now) (next_pid w))
        (processes w)). lia.
    + now apply DictFacts.NoDup_values_set.
Qed.

Lemma registry_ok_run w ops :
  registry_ok w -> registry_ok (run env w ops).
Proof.
  apply run_preserves.
  - apply registry_ok_remove.
  - apply registry_ok_handle.
  - intros e w' H. exact H.
  - intros l w' H. exact H.
Qed.

Lemma registry_ok_empty w :
  processes w = [] -> tokens w = PDict [] -> registry_ok w.
Proof.
  intros Hp Ht. unfold registry_ok, credentials. rewrite Hp, Ht. simpl.
  repeat split; [unfold MAX_BOTS; lia | constructor].
Qed.

End Invariants.

Section Reachable.
Variable env : Env.

Lemma well_tracked_remove id w :
  well_tracked w -> well_tracked (snd (remove_bot env id w)).
Proof.
  intros [Hp|(d & Ht & Hk)].
  - left. rewrite remove_bot_processes, Hp. reflexivity.
  - right. destruct (remove_bot_dict env id w d Ht) as (w' & E & Hp & Htk & _).
    rewrite E. simpl. exists (Dict.del id d). split; [assumption|].
    intros k. rewrite Hp, !In_keys_del. intuition.
Qed.

Lemma well_tracked_handle tok valid now w :
  well_tracked w -> well_tracked (snd (handle_token env tok valid now w)).
Proof.
  intros H.
  assert (Hd : (exists d, tokens w = PDict d) \/ (forall d, tokens w <> PDict d)).
  { destruct (tokens w); try (right; discriminate). left; eauto. }
  destruct Hd as [[d Ht]|Hno].
  - destruct (handle_token_cases env tok valid now w d Ht)
      as [(Hp & Htk & _)|(_ & _ & Hp & Htk & _)].
    + unfold well_tracked. rewrite Hp, Htk. assumption.
    + right. eexists. split; [exact Htk|].
      intros k. rewrite Hp, !In_keys_set. intros [Hk|Hk]; [auto|].
      destruct H as [H|(d' & Ht' & Hk')].
      * rewrite H in Hk. destruct Hk.
      * right. rewrite Ht in Ht'. inversion Ht'; subst. auto.
  - now rewrite handle_token_other.
Qed.

Lemma well_tracked_run w ops :
  well_tracked w -> well_tracked (run env w ops).
Proof.
  apply run_preserves.
  - apply well_tracked_remove.
  - apply well_tracked_handle.
  - intros e w' H. exact H.
  - intros l w' H. exact H.
Qed.

Lemma well_tracked_boot file : well_tracked (boot env file).
Proof.
  destruct (snapshot_items file) as [items|] eqn:E.
  - right. destruct (boot_valid env file items E) as (_ & Ht & _ & _ & Hp).
    exists items. split; [assumption|].
    intros k Hin. apply in_map_iff in Hin. destruct Hin as ([k' p] & Hk & Hin).
    simpl in Hk. subst k'. destruct (Hp k p Hin) as [_ Hi].
    apply in_map_iff. exists (k, token p). auto.
  - left. destruct (BotManager_init_corrupt env file E) as (w & Ew & Hp & _).
    unfold boot. now rewrite Ew.
Qed.

(** In every state the supervisor reaches, every tracked bot_id has a
    token. *)
Lemma reachable_well_tracked file ops :
  well_tracked (run env (boot env file) ops).
Proof. apply well_tracked_run, well_tracked_boot. Qed.

(** [stop_all_bots] leaves no tracked process. *)
Lemma stop_all_bots_untracks w :
  well_tracked w ->
  fst (stop_all_bots env w) = Ok tt /\ processes (snd (stop_all_bots env w)) = [].
Proof.
  intros [Hp|(d & Ht & _)].
  - rewrite (stop_all_bots_empty env w Hp). simpl. auto.
  - destruct (stop_all_bots_dict env w d Ht) as (w' & E & Hp & _).
    rewrite E. auto.
Qed.

(** *** With writes that succeed, the file follows the registry *)

Hypothesis writes_succeed : forall n, write_outcome env n = Written.

Lemma consistent_ext w w' :
  processes w' = processes w -> tokens w' = tokens w -> disk w' = disk w ->
  consistent w -> consistent w'.
Proof.
  unfold consistent, persisted, all_tracked. intros Hp Ht Hd.
  rewrite Hp, Ht, Hd. auto.
Qed.

Lemma consistent_remove id w :
  well_tracked w -> consistent w -> consistent (snd (remove_bot env id w)).
Proof.
  intros Hwt [Hd Hk].
  assert (Hc : (exists d, tokens w = PDict d) \/ (forall d, tokens w <> PDict d)).
  { destruct (tokens w); try (right; discriminate). left; eauto. }
  destruct Hc as [[d Ht]|Hno].
  - destruct (remove_bot_dict env id w d Ht)
      as (w' & E & Hp & Htk & _ & _ & Hy & Hn).
    rewrite E. simpl. unfold consistent, persisted, all_tracked. split.
    + rewrite Htk. destruct (Dict.mem id d) eqn:Hm.
      * destruct (Hy eq_refl) as [_ Hdisk]. rewrite Hdisk, writes_succeed.
        reflexivity.
      * destruct (Hn eq_refl) as [_ Hdisk]. rewrite Hdisk.
        apply DictFacts.mem_get in Hm.
        rewrite (DictFacts.del_absent id d Hm). unfold persisted in Hd.
        congruence.
    + intros d' Hd' k. rewrite Htk in Hd'. inversion Hd'; subst.
      rewrite Hp, !In_keys_del. intros [Hne Hin]. split; [assumption|].
      exact (Hk d Ht k Hin).
  - destruct Hwt as [Hp|(d & Ht & _)]; [|now destruct (Hno d)].
    rewrite (remove_bot_untyped env id w Hp Hno). split; assumption.
Qed.

Lemma consistent_handle tok valid now w :
  consistent w -> consistent (snd (handle_token env tok valid now w)).
Proof.
  intros [Hd Hk].
  assert (Hc : (exists d, tokens w = PDict d) \/ (forall d, tokens w <> PDict d)).
  { destruct (tokens w); try (right; discriminate). left; eauto. }
  destruct Hc as [[d Ht]|Hno].
  - destruct (handle_token_cases env tok valid now w d Ht)
      as [(Hp & Htk & Hdk & _)|(_ & _ & Hp & Htk & Hdk)].
    + apply (consistent_ext w); auto. split; assumption.
    + unfold consistent, persisted, all_tracked. split.
      * rewrite Hdk, writes_succeed. reflexivity.
      * intros d' Hd' k. rewrite Htk in Hd'. inversion Hd'; subst.
        rewrite Hp, !In_keys_set. intros [H|H]; [auto|].
        right. exact (Hk d Ht k H).
  - rewrite handle_token_other by assumption. split; assumption.
Qed.

Lemma both_run ops : forall w,
  well_tracked w /\ consistent w ->
  well_tracked (run env w ops) /\ consistent (run env w ops).
Proof.
  apply (run_preserves env (fun w => well_tracked w /\ consistent w)).
  - intros id w [H1 H2]. split;
      [now apply well_tracked_remove | now apply consistent_remove].
  - intros tok valid now w [H1 H2]. split;
      [now apply well_tracked_handle | now apply consistent_handle].
  - intros e w H. exact H.
  - intros l w H. exact H.
Qed.

Lemma consistent_boot file :
  (forall n, n < List.length (entries (snapshot_of file)) ->
             spawn_ok env n = true) ->
  consistent (boot env file).
Proof.
  intros Hs. split.
  - unfold persisted. destruct (boot_disk env file) as [Hd _].
    now rewrite Hd, boot_tokens.
  - intros d Ht k Hin. rewrite boot_tokens in Ht.
    destruct (snapshot_items file) as [items|] eqn:E.
    + rewrite (snapshot_items_some file items E) in Ht, Hs.
      inversion Ht; subst d. simpl in Hs.
      unfold boot. rewrite (BotManager_init_valid env file items E).
      unfold try_except.
      destruct (restart_loop_keys env items (loaded file items) Hs)
        as (w' & Ew & Hk).
      rewrite Ew. simpl. auto.
    + apply snapshot_items_none in E. rewrite Ht in E. simpl in E.
      subst d. destruct Hin.
Qed.

Lemma stop_all_bots_empties_tokens w :
  well_tracked w -> all_tracked w ->
  entries (tokens (snd (stop_all_bots env w))) = [].
Proof.
  intros [Hp|(d & Ht & _)] Hk.
  - destruct (tokens w) as [| | | | |d] eqn:Ht;
      rewrite (stop_all_bots_empty env w Hp); simpl; rewrite Ht;
      try reflexivity.
    simpl. destruct d as [|[k v] d]; [reflexivity|].
    specialize (Hk _ Ht k (or_introl eq_refl)).
    rewrite Hp in Hk. destruct Hk.
  - destruct (stop_all_bots_dict env w d Ht) as (w' & E & _ & Htk).
    rewrite E. simpl. rewrite Htk. simpl.
    apply del_all_covered. exact (Hk d Ht).
Qed.

End Reachable.

(* ===================================================================== *)
(** * The properties of the specification *)
(* ===================================================================== *)

(** ** C1: the registry is bounded and its tokens are distinct *)

(** C1.  Start from an empty registry and let anything happen to the
    supervisor, in any order: messages with tokens ([handle_token], which
    calls [add_bot]), presses on a stop button, [/stop_all], direct calls
    of [remove_bot], children that exit.  At every point the count that
    [get_bot_count] returns is at most [MAX_BOTS], no two tracked
    processes have the same token and no token occurs twice in
    [tokens]. *)
Theorem registry_bounded_and_unique env w0 ops :
  processes w0 = [] -> tokens w0 = PDict [] ->
  let w := run env w0 ops in
  (exists n, get_bot_count w = (Ok n, w) /\ n <= MAX_BOTS) /\
  NoDup (map token (Dict.values (processes w))) /\
  (exists d, tokens w = PDict d /\ NoDup (Dict.values d)).
Proof.
  intros Hp Ht w.
  destruct (registry_ok_run env w0 ops (registry_ok_empty w0 Hp Ht))
    as (Htk & Hn & Hd).
  fold w in Htk, Hn, Hd. split; [|split].
  - exists (List.length (processes w)). split; [reflexivity | assumption].
  - unfold credentials in Hd. now rewrite DictFacts.values_map_values in Hd.
  - exists (credentials w). auto.
Qed.

(** C1 at a run of four operations, two of which mint the same
    bot_id. *)
Lemma registry_bounded_and_unique_witness :
  let ops := [OpHandleToken "tokA" true morning;
              OpHandleToken "tokB" true same_second;
              OpHandleToken "tokA" true next_second;
              OpStopSpecific "stop_bot_20240517_090307"] in
  let w := run env_ok (fresh Missing) ops in
  processes (fresh Missing) = [] /\
  tokens (fresh Missing) = PDict [] /\
  (exists n, get_bot_count w = (Ok n, w) /\ n <= MAX_BOTS) /\
  NoDup (map token (Dict.values (processes w))) /\
  (exists d, tokens w = PDict d /\ NoDup (Dict.values d)).
Proof.
  intros ops w. split; [reflexivity|]. split; [reflexivity|].
  exact (registry_bounded_and_unique env_ok (fresh Missing) ops
           eq_refl eq_refl).
Defined.

(** ** C2: the order of the checks of [handle_token] *)

Lemma is_token_used_inv tok w b :
  is_token_used tok w = (Ok b, w) ->
  exists d, tokens w = PDict d /\ b = existsb (str_eq_val tok) (Dict.values d).
Proof.
  unfold is_token_used. munfold. unfold py_values. munfold.
  destruct (tokens w) as [| | | | |d]; try discriminate.
  intros H. inversion H. eauto.
Qed.

(** C2.  [handle_token] checks in a fixed order and the first check that
    fails decides the answer.  A token that fails validation is answered
    with [InvalidCredential], whatever the registry holds.  A valid token
    that [is_token_used] finds is answered with [DuplicateCredential],
    whatever the count.  A valid, unused token is answered with
    [CapacityExceeded] when [MAX_BOTS] processes are tracked.  Otherwise
    the handler mints a bot_id, starts a process, records it under that
    bot_id in [processes] and in [tokens], saves, and answers with the
    bot_id; this last case is stated for a process that starts, and the
    content of the file for a write that succeeds. *)
Theorem handle_token_checks_in_order env tok now w :
  handle_token env tok false now w = (Ok InvalidCredential, w) /\
  (is_token_used tok w = (Ok true, w) ->
     handle_token env tok true now w = (Ok DuplicateCredential, w)) /\
  (is_token_used tok w = (Ok false, w) ->
   MAX_BOTS <= List.length (processes w) ->
     handle_token env tok true now w = (Ok CapacityExceeded, w)) /\
  (is_token_used tok w = (Ok false, w) ->
   List.length (processes w) < MAX_BOTS ->
   spawn_ok env (next_pid w) = true ->
   exists w',
     handle_token env tok true now w
       = (Ok (Started (mint_bot_id now) (List.length (processes w'))), w') /\
     Dict.get (mint_bot_id now) (processes w')
       = Some (mkBotProcess (PStr tok) (mint_bot_id now) (next_pid w)) /\
     In (next_pid w) (alive w') /\
     Dict.get (mint_bot_id now) (entries (tokens w')) = Some (PStr tok) /\
     (write_outcome env (writes w) = Written ->
        disk w' = Content (PDict [("tokens", tokens w')]))).
Proof.
  split; [reflexivity|]. split; [|split].
  - intros H. destruct (is_token_used_inv tok w true H) as (d & Ht & Hb).
    now apply (handle_token_duplicate env tok now w d).
  - intros H Hn. destruct (is_token_used_inv tok w false H) as (d & Ht & Hb).
    now apply (handle_token_full env tok now w d).
  - intros H Hn Hs.
    destruct (is_token_used_inv tok w false H) as (d & Ht & Hb).
    destruct (handle_token_started env tok now w d Ht (eq_sym Hb) Hn Hs)
      as (w' & E & Hp & Htk & Ha & _ & _ & Hd).
    exists w'. split; [assumption|]. split; [|split; [|split]].
    + rewrite Hp. apply DictFacts.get_set_eq.
    + rewrite Ha. simpl. auto.
    + rewrite Htk. simpl. apply DictFacts.get_set_eq.
    + intros Hw. rewrite Hw in Hd. exact Hd.
Qed.

(** C2 at a registry recovered with two bots: an invalid token, the
    token of one of the two bots, and a new token. *)
Lemma handle_token_checks_in_order_witness :
  let w := boot env_ok two_bots in
  handle_token env_ok "tokA" false morning w = (Ok InvalidCredential, w) /\
  (is_token_used "tokA" w = (Ok true, w) /\
   handle_token env_ok "tokA" true morning w = (Ok DuplicateCredential, w)) /\
  (is_token_used "tokC" w = (Ok false, w) /\
   List.length (processes w) < MAX_BOTS /\
   spawn_ok env_ok (next_pid w) = true /\
   exists w',
     handle_token env_ok "tokC" true morning w
       = (Ok (Started (mint_bot_id morning) (List.length (processes w'))), w') /\
     Dict.get (mint_bot_id morning) (processes w')
       = Some (mkBotProcess (PStr "tokC") (mint_bot_id morning) (next_pid w)) /\
     In (next_pid w) (alive w') /\
     Dict.get (mint_bot_id morning) (entries (tokens w')) = Some (PStr "tokC") /\
     (write_outcome env_ok (writes w) = Written ->
        disk w' = Content (PDict [("tokens", tokens w')]))).
Proof.
  intros w.
  destruct (handle_token_checks_in_order env_ok "tokA" morning w)
    as (H1 & H2 & _).
  destruct (handle_token_checks_in_order env_ok "tokC" morning w)
    as (_ & _ & _ & H4).
  assert (Hlt : List.length (processes w) < MAX_BOTS)
    by (vm_compute; lia).
  split; [exact H1|]. split; [split; [reflexivity | exact (H2 eq_refl)]|].
  split; [reflexivity|]. split; [exact Hlt|]. split; [reflexivity|].
  exact (H4 eq_refl Hlt eq_refl).
Defined.

(** ** C3: [stop_all_bots] *)

(** The statement of C3 fails after a recovery that a failing start
    has aborted: the tokens without a process are still in the file after
    [stop_all_bots]. *)
Lemma stop_all_leaves_untracked_tokens :
  ~ stop_all_empties env_first_spawn_fails two_bots [].
Proof.
  unfold stop_all_empties. intros [_ H]. vm_compute in H. discriminate H.
Qed.

(** C3, amended.  After [stop_all_bots], in every state the supervisor
    reaches, [get_bot_count] returns 0.  If every start of the recovery
    succeeded and the writes of the file succeed, the snapshot in the file
    has no entry left. *)
Theorem stop_all_bots_clears env file ops :
  let w' := snd (stop_all_bots env (run env (boot env file) ops)) in
  get_bot_count w' = (Ok 0, w') /\
  ((forall n, n < List.length (entries (snapshot_of file)) ->
              spawn_ok env n = true) ->
   (forall n, write_outcome env n = Written) ->
   entries (snapshot_of (disk w')) = []).
Proof.
  intros w'. split.
  - unfold get_bot_count, gets.
    destruct (stop_all_bots_untracks env _ (reachable_well_tracked env file ops))
      as [_ Hp].
    fold w' in Hp. now rewrite Hp.
  - intros Hs Hw.
    destruct (both_run env Hw ops (boot env file)) as [Hwt [_ Hk]].
    { split; [apply well_tracked_boot | now apply consistent_boot]. }
    destruct (both_run env Hw (ops ++ [OpStopAll]) (boot env file))
      as [_ [Hd _]].
    { split; [apply well_tracked_boot | now apply consistent_boot]. }
    unfold run in Hd. rewrite fold_left_app in Hd. simpl in Hd.
    rewrite stop_all_command_world in Hd. unfold persisted in Hd.
    fold (run env (boot env file) ops) in Hd. fold w' in Hd.
    rewrite Hd. now apply stop_all_bots_empties_tokens.
Qed.

(** C3, amended, at a supervisor that recovered two bots and added a
    third. *)
Lemma stop_all_bots_clears_witness :
  let w' := snd (stop_all_bots env_ok
                   (run env_ok (boot env_ok two_bots)
                        [OpHandleToken "tokC" true morning])) in
  (forall n, n < 2 -> spawn_ok env_ok n = true) /\
  (forall n, write_outcome env_ok n = Written) /\
  get_bot_count w' = (Ok 0, w') /\
  entries (snapshot_of (disk w')) = [].
Proof.
  intros w'.
  assert (Hs : forall n, n < 2 -> spawn_ok env_ok n = true)
    by (intros; reflexivity).
  assert (Hw : forall n, write_outcome env_ok n = Written)
    by (intros; reflexivity).
  destruct (stop_all_bots_clears env_ok two_bots
              [OpHandleToken "tokC" true morning]) as [Hc He].
  split; [exact Hs|]. split; [exact Hw|]. split; [exact Hc|].
  exact (He Hs Hw).
Defined.

(** ** C4: [remove_bot] on a tracked bot *)

(** The statement of C4 fails for a process that does not exit within
    the five seconds of [join]: it still runs when [remove_bot] returns. *)
Lemma removed_process_keeps_running :
  ~ remove_stops_process env_stubborn one_stubborn_bot "bot_20240517_090307".
Proof.
  intros H.
  apply (H (mkBotProcess (PStr "tokA") "bot_20240517_090307" 0)).
  - reflexivity.
  - vm_compute. auto.
Qed.

Lemma get_Some_keys (V : Type) k (d : Dict.t V) v :
  Dict.get k d = Some v -> In k (Dict.keys d).
Proof.
  intros H. apply DictFacts.mem_keys. unfold Dict.mem. now rewrite H.
Qed.

(** C4, amended.  For a bot_id that is tracked in a state the supervisor
    reaches, [remove_bot] returns normally.  If the process is alive it
    asks it to terminate and waits for it with a timeout of five seconds,
    and it does nothing more to the process: the process is gone
    afterwards only if it was alive and exited in time.  The record is
    removed from [processes] and from [tokens], and the file is written
    with the remaining tokens. *)
Theorem remove_bot_tracked env file ops id p :
  let w := run env (boot env file) ops in
  Dict.get id (processes w) = Some p ->
  exists d w',
    tokens w = PDict d /\ Dict.mem id d = true /\
    remove_bot env id w = (Ok tt, w') /\
    Dict.get id (processes w') = None /\
    tokens w' = PDict (Dict.del id d) /\
    alive w' = alive_after_stop env (pid p) (alive w) /\
    trace w'
      = save_events (write_outcome env (writes w))
        ++ stop_events id (pid p) (existsb (Nat.eqb (pid p)) (alive w))
        ++ trace w /\
    disk w' = disk_after (write_outcome env (writes w))
                (PDict [("tokens", PDict (Dict.del id d))]) (disk w).
Proof.
  intros w G.
  destruct (reachable_well_tracked env file ops) as [Hp|(d & Ht & Hk)];
    fold w in Hp || fold w in Ht, Hk.
  - rewrite Hp in G. discriminate G.
  - assert (Hm : Dict.mem id d = true).
    { apply DictFacts.mem_keys, Hk. eapply get_Some_keys; eauto. }
    destruct (remove_bot_dict env id w d Ht)
      as (w' & E & Hp & Htk & _ & Ha & Hy & _).
    exists d, w'. rewrite G in Ha. destruct (Hy Hm) as [_ Hd].
    repeat split; auto.
    + rewrite Hp. apply DictFacts.get_del_eq.
    + pose proof (remove_bot_trace env id w p d G Ht Hm) as T.
      rewrite E in T. exact T.
Qed.

(** C4, amended, at the bot whose process does not exit in time. *)
Lemma remove_bot_tracked_witness :
  let w := run env_stubborn (boot env_stubborn Missing)
               [OpHandleToken "tokA" true morning] in
  Dict.get "bot_20240517_090307" (processes w)
    = Some (mkBotProcess (PStr "tokA") "bot_20240517_090307" 0) /\
  exists d w',
    tokens w = PDict d /\ Dict.mem "bot_20240517_090307" d = true /\
    remove_bot env_stubborn "bot_20240517_090307" w = (Ok tt, w') /\
    Dict.get "bot_20240517_090307" (processes w') = None /\
    tokens w' = PDict (Dict.del "bot_20240517_090307" d) /\
    alive w' = alive_after_stop env_stubborn 0 (alive w) /\
    trace w'
      = save_events (write_outcome env_stubborn (writes w))
        ++ stop_events "bot_20240517_090307" 0
             (existsb (Nat.eqb 0) (alive w))
        ++ trace w /\
    disk w' = disk_after (write_outcome env_stubborn (writes w))
                (PDict [("tokens", PDict (Dict.del "bot_20240517_090307" d))])
                (disk w).
Proof.
  intros w. split; [reflexivity|].
  exact (remove_bot_tracked env_stubborn Missing
           [OpHandleToken "tokA" true morning] "bot_20240517_090307"
           (mkBotProcess (PStr "tokA") "bot_20240517_090307" 0) eq_refl).
Defined.

(** ** C5: recovery keeps the stored bot_id *)

(** C5.  Every process that is tracked after [BotManager()] carries the
    bot_id it is stored under, and that bot_id with the token of the
    process is an entry of the snapshot that was loaded: recovery mints
    no identifier. *)
Theorem recovery_keeps_bot_ids env file k p :
  In (k, p) (processes (boot env file)) ->
  bot_id p = k /\ In (k, token p) (entries (snapshot_of file)).
Proof. apply boot_processes. Qed.

(** C5 at the second of two recovered bots. *)
Lemma recovery_keeps_bot_ids_witness :
  In ("bot_b", mkBotProcess (PStr "tokB") "bot_b" 1)
     (processes (boot env_ok two_bots)) /\
  bot_id (mkBotProcess (PStr "tokB") "bot_b" 1) = "bot_b" /\
  In ("bot_b", PStr "tokB") (entries (snapshot_of two_bots)).
Proof.
  assert (H : In ("bot_b", mkBotProcess (PStr "tokB") "bot_b" 1)
                 (processes (boot env_ok two_bots)))
    by (vm_compute; right; left; reflexivity).
  split; [exact H|].
  exact (recovery_keeps_bot_ids env_ok two_bots "bot_b"
           (mkBotProcess (PStr "tokB") "bot_b" 1) H).
Defined.

(** ** C6: one bot_id for two tokens *)

(** The identifier does not depend on the microseconds. *)
Lemma mint_bot_id_same_second now now' :
  year now = year now' -> month now = month now' -> day now = day now' ->
  hour now = hour now' -> minute now = minute now' ->
  second now = second now' ->
  mint_bot_id now = mint_bot_id now'.
Proof.
  intros Hy Hm Hd Hh Hmi Hs. unfold mint_bot_id, strftime_Ymd_HMS.
  now rewrite Hy, Hm, Hd, Hh, Hmi, Hs.
Qed.

(** C6 fails in the code.  Two valid tokens that are handled within the
    same second are both answered with the same bot_id.  The second
    [add_bot] replaces the record of the first: the bot_id now stands for
    the second token, the first process still runs but is tracked nowhere,
    and the first token counts as unused again. *)
Theorem same_second_replaces_record :
  let w0 := boot env_ok Missing in
  let w1 := snd (handle_token env_ok "tokA" true morning w0) in
  let w2 := snd (handle_token env_ok "tokB" true same_second w1) in
  fst (handle_token env_ok "tokA" true morning w0)
    = Ok (Started "bot_20240517_090307" 1) /\
  fst (handle_token env_ok "tokB" true same_second w1)
    = Ok (Started "bot_20240517_090307" 1) /\
  processes w1
    = [("bot_20240517_090307",
        mkBotProcess (PStr "tokA") "bot_20240517_090307" 0)] /\
  processes w2
    = [("bot_20240517_090307",
        mkBotProcess (PStr "tokB") "bot_20240517_090307" 1)] /\
  tokens w2 = PDict [("bot_20240517_090307", PStr "tokB")] /\
  alive w2 = [1; 0] /\
  is_token_used "tokA" w2 = (Ok false, w2).
Proof. vm_compute. repeat split. Qed.

(** ** C7: a start that fails during recovery *)

(** The statement of C7 fails when the first of two stored bots does
    not start: the second, which would have started, is not tracked. *)
Lemma failed_start_aborts_recovery :
  ~ recovery_isolates_failures env_first_spawn_fails two_bots.
Proof.
  intros H. destruct (H 1 "bot_b" (PStr "tokB") eq_refl) as [H1 _].
  specialize (H1 eq_refl). vm_compute in H1. discriminate H1.
Qed.

(** C7, amended.  When the start of the [i]-th entry of a well-formed
    snapshot is the first to fail, [BotManager()] still returns normally;
    the entries before the [i]-th are tracked, the [i]-th and all later
    ones are not; [tokens] holds every entry of the snapshot; and the last
    thing logged is the error. *)
Theorem recovery_stops_at_first_failure env file items i :
  snapshot_items file = Some items ->
  NoDup (Dict.keys items) ->
  i < List.length items ->
  (forall j, j < i -> spawn_ok env j = true) ->
  spawn_ok env i = false ->
  let w := boot env file in
  fst (BotManager_init env (fresh file)) = Ok tt /\
  processes w = respawned 0 (firstn i items) /\
  tokens w = PDict items /\
  hd_error (trace w) = Some (Log ERROR (ErrorLoading OSError)).
Proof.
  intros Hf Hnd Hi Hs Hfail w. split; [apply boot_returns|].
  unfold w, boot. rewrite (BotManager_init_valid env file items Hf).
  unfold try_except.
  destruct (restart_loop_fails env items (loaded file items) i Hi Hs Hfail Hnd)
    as (w1 & E & Hp & Ht & _).
  { intros k _ []. }
  rewrite E. simpl. auto.
Qed.

(** C7, amended, at two stored bots of which the first does not
    start. *)
Lemma recovery_stops_at_first_failure_witness :
  snapshot_items two_bots
    = Some [("bot_a", PStr "tokA"); ("bot_b", PStr "tokB")] /\
  spawn_ok env_first_spawn_fails 0 = false /\
  let w := boot env_first_spawn_fails two_bots in
  fst (BotManager_init env_first_spawn_fails (fresh two_bots)) = Ok tt /\
  processes w = [] /\
  tokens w = PDict [("bot_a", PStr "tokA"); ("bot_b", PStr "tokB")] /\
  hd_error (trace w) = Some (Log ERROR (ErrorLoading OSError)).
Proof.
  split; [reflexivity|]. split; [reflexivity|].
  apply (recovery_stops_at_first_failure env_first_spawn_fails two_bots
           [("bot_a", PStr "tokA"); ("bot_b", PStr "tokB")] 0 eq_refl).
  - repeat constructor; simpl; intuition discriminate.
  - simpl. lia.
  - intros j Hj. lia.
  - reflexivity.
Defined.

(** ** C8: recovery from a well-formed and from a broken file *)



(** ** C9: saving and loading *)

(** C9.  When [save_bots] succeeds in writing the file, the snapshot in
    the file is [tokens], and a supervisor that is started on that file
    loads exactly [tokens], whether its processes start or not. *)
Theorem save_then_load env env' w :
  write_outcome env (writes w) = Written ->
  let saved := snd (save_bots env w) in
  tokens saved = tokens w /\
  snapshot_of (disk saved) = tokens w /\
  tokens (boot env' (disk saved)) = tokens w.
Proof.
  intros Hw saved.
  destruct (save_bots_spec env w) as (w' & E & _ & Ht & _ & _ & _ & Hd).
  unfold saved. rewrite E. simpl. rewrite Hw in Hd. simpl in Hd.
  split; [assumption|]. rewrite boot_tokens, Hd. auto.
Qed.

(** C9 at a supervisor with two bots, loaded again where a start
    fails. *)
Lemma save_then_load_witness :
  let w := boot env_ok two_bots in
  write_outcome env_ok (writes w) = Written /\
  tokens (snd (save_bots env_ok w)) = tokens w /\
  snapshot_of (disk (snd (save_bots env_ok w))) = tokens w /\
  tokens (boot env_first_spawn_fails (disk (snd (save_bots env_ok w))))
    = tokens w.
Proof.
  intros w. split; [reflexivity|].
  exact (save_then_load env_ok env_first_spawn_fails w eq_refl).
Defined.

(** ** C10: an unknown bot_id *)

(** C10.  For a bot_id that is not in [processes], [stop_specific_bot]
    answers [NotFound] and leaves the world as it is: registry, file,
    processes and log.  [remove_bot] itself leaves the world as it is for
    a bot_id that is in neither [processes] nor [tokens]. *)
Theorem unknown_bot_not_found env w :
  (forall data,
     Dict.mem (replace_stop_ data) (processes w) = false ->
     stop_specific_bot env data w = (Ok NotFound, w)) /\
  (forall id,
     Dict.mem id (processes w) = false ->
     py_contains id (tokens w) w = (Ok false, w) ->
     remove_bot env id w = (Ok tt, w)).
Proof.
  split.
  - intros data Hm. unfold stop_specific_bot. munfold. now rewrite Hm.
  - intros id Hm Hc. apply DictFacts.mem_get in Hm.
    unfold remove_bot. munfold. rewrite Hm, Hc. reflexivity.
Qed.

(** C10 at a bot_id that a supervisor with two bots does not know. *)
Lemma unknown_bot_not_found_witness :
  let w := boot env_ok two_bots in
  Dict.mem (replace_stop_ "stop_bot_c") (processes w) = false /\
  stop_specific_bot env_ok "stop_bot_c" w = (Ok NotFound, w) /\
  py_contains "bot_c" (tokens w) w = (Ok false, w) /\
  remove_bot env_ok "bot_c" w = (Ok tt, w).
Proof.
  intros w.
  destruct (unknown_bot_not_found env_ok w) as [H1 H2].
  split; [reflexivity|]. split; [exact (H1 "stop_bot_c" eq_refl)|].
  split; [reflexivity|]. exact (H2 "bot_c" eq_refl eq_refl).
Defined.

(* ===================================================================== *)
(** * Further properties of the code *)
(* ===================================================================== *)

From Stdlib Require Import ZArith Zify ZifyNat.
Ltac Zify.zify_post_hook ::= Z.to_euclidean_division_equations.

(** ** More facts about dictionaries *)

Section MoreDictFacts.
Variable V : Type.
Implicit Types (d : Dict.t V) (k : string) (v : V).

Lemma del_set_fresh k v d :
  Dict.get k d = None -> Dict.del k (Dict.set k v d) = d.
Proof.
  induction d as [|[k' v'] r IH]; simpl.
  - now rewrite String.eqb_refl.
  - destruct (String.eqb k' k) eqn:E; [discriminate|].
    intros H. simpl. now rewrite E, IH.
Qed.

Lemma NoDup_keys_set k v d :
  NoDup (Dict.keys d) -> NoDup (Dict.keys (Dict.set k v d)).
Proof.
  induction d as [|[k' v'] r IH]; simpl; intros Hnd.
  - constructor; [intros [] | constructor].
  - inversion Hnd as [|? ? Hk Hr]; subst.
    destruct (String.eqb k' k) eqn:E; simpl.
    + apply String.eqb_eq in E. subst k'. now constructor.
    + apply String.eqb_neq in E. constructor; [|auto].
      fold (Dict.keys (Dict.set k v r)). rewrite In_keys_set.
      fold (Dict.keys r) in Hk. tauto.
Qed.

Lemma NoDup_keys_del k d :
  NoDup (Dict.keys d) -> NoDup (Dict.keys (Dict.del k d)).
Proof.
  induction d as [|[k' v'] r IH]; simpl; intros Hnd; [constructor|].
  inversion Hnd as [|? ? Hk Hr]; subst.
  destruct (String.eqb k' k) eqn:E; simpl; [auto|].
  constructor; [|auto].
  fold (Dict.keys (Dict.del k r)). rewrite In_keys_del.
  fold (Dict.keys r) in Hk. tauto.
Qed.

Lemma In_set_inv k v d x :
  NoDup (Dict.keys d) -> In x (Dict.set k v d) ->
  x = (k, v) \/ (fst x <> k /\ In x d).
Proof.
  induction d as [|[k' v'] r IH]; simpl; intros Hnd.
  - intros [H|[]]; auto.
  - inversion Hnd as [|? ? Hk Hr]; subst.
    destruct (String.eqb k' k) eqn:E; simpl.
    + apply String.eqb_eq in E. subst k'. intros [H|H]; [auto|].
      right. split; [|auto]. intros Hx. apply Hk. subst k.
      now apply in_map.
    + apply String.eqb_neq in E. intros [H|H].
      * subst x. simpl. auto.
      * destruct (IH Hr H) as [Hx|[Hx Hin]]; auto.
Qed.

Lemma In_del_inv k d x : In x (Dict.del k d) -> fst x <> k /\ In x d.
Proof.
  induction d as [|[k' v'] r IH]; simpl; [tauto|].
  destruct (String.eqb k' k) eqn:E; simpl.
  - intros H. destruct (IH H). auto.
  - apply String.eqb_neq in E. intros [H|H].
    + subst x. simpl. auto.
    + destruct (IH H). auto.
Qed.

Lemma In_set_same k v d : In (k, v) (Dict.set k v d).
Proof.
  induction d as [|[k' v'] r IH]; simpl; [auto|].
  destruct (String.eqb k' k); simpl; auto.
Qed.

Lemma In_set_other k v d x : fst x <> k -> In x d -> In x (Dict.set k v d).
Proof.
  intros Hne. induction d as [|[k' v'] r IH]; simpl; [tauto|].
  destruct (String.eqb k' k) eqn:E; simpl.
  - apply String.eqb_eq in E. subst k'. intros [H|H]; [|auto].
    subst x. now destruct Hne.
  - intros [H|H]; auto.
Qed.

Lemma In_del_other k d x : fst x <> k -> In x d -> In x (Dict.del k d).
Proof.
  intros Hne. induction d as [|[k' v'] r IH]; simpl; [tauto|].
  destruct (String.eqb k' k) eqn:E; simpl.
  - apply String.eqb_eq in E. subst k'. intros [H|H]; [|auto].
    subst x. now destruct Hne.
  - intros [H|H]; auto.
Qed.

Lemma length_del_tracked k d :
  NoDup (Dict.keys d) -> Dict.mem k d = true ->
  S (List.length (Dict.del k d)) = List.length d.
Proof.
  induction d as [|[k' v'] r IH]; simpl; intros Hnd Hm.
  - discriminate.
  - inversion Hnd as [|? ? Hk Hr]; subst. unfold Dict.mem in Hm. simpl in Hm.
    destruct (String.eqb k' k) eqn:E.
    + apply String.eqb_eq in E. subst k'.
      rewrite DictFacts.del_absent; [reflexivity|].
      now apply get_None_keys.
    + simpl. f_equal. apply IH; [assumption|]. exact Hm.
Qed.
End MoreDictFacts.

(** ** More facts about [handle_token] *)

Section MoreHandleFacts.
Variable env : Env.

Lemma handle_token_started_trace tok now w d :
  tokens w = PDict d ->
  existsb (str_eq_val tok) (Dict.values d) = false ->
  List.length (processes w) < MAX_BOTS ->
  spawn_ok env (next_pid w) = true ->
  trace (snd (handle_token env tok true now w))
  = Log INFO
      (Added (mint_bot_id now)
         (List.length
            (Dict.set (mint_bot_id now)
               (mkBotProcess (PStr tok) (mint_bot_id now) (next_pid w))
               (processes w))))
    :: save_events (write_outcome env (writes w))
    ++ SysStart (next_pid w) true :: trace w.
Proof.
  intros Ht Hu Hn Hs. unfold handle_token. cbn [negb]. unfold bind at 1.
  rewrite (is_token_used_dict tok w d Ht), Hu.
  unfold get_bot_count, BotProcess_init, start, add_bot, save_bots,
    json_dump_file, save_events.
  munfold. cbv beta iota.
  apply Nat.leb_gt in Hn. rewrite Hn. wsimpl. rewrite Hs. wsimpl.
  rewrite Ht. wsimpl.
  destruct (write_outcome env (writes w)); reflexivity.
Qed.

Lemma handle_token_spawn_fails_trace tok now w d :
  tokens w = PDict d ->
  existsb (str_eq_val tok) (Dict.values d) = false ->
  List.length (processes w) < MAX_BOTS ->
  spawn_ok env (next_pid w) = false ->
  trace (snd (handle_token env tok true now w))
  = SysStart (next_pid w) false :: trace w.
Proof.
  intros Ht Hu Hn Hs. unfold handle_token. cbn [negb]. unfold bind at 1.
  rewrite (is_token_used_dict tok w d Ht), Hu.
  unfold get_bot_count, BotProcess_init, start. munfold. cbv beta iota.
  apply Nat.leb_gt in Hn. rewrite Hn. wsimpl. rewrite Hs. reflexivity.
Qed.

(** What a call that answers [Started] has done. *)
Lemma handle_token_started_inv tok valid now w id n w' :
  handle_token env tok valid now w = (Ok (Started id n), w') ->
  exists d,
    valid = true /\ tokens w = PDict d /\
    existsb (str_eq_val tok) (Dict.values d) = false /\
    List.length (processes w) < MAX_BOTS /\
    spawn_ok env (next_pid w) = true /\
    id = mint_bot_id now /\
    processes w'
      = Dict.set id (mkBotProcess (PStr tok) id (next_pid w)) (processes w) /\
    tokens w' = PDict (Dict.set id (PStr tok) d).
Proof.
  intros H.
  destruct valid; [|rewrite handle_token_invalid in H; discriminate].
  assert (Hd : (exists d, tokens w = PDict d) \/ (forall d, tokens w <> PDict d)).
  { destruct (tokens w); try (right; discriminate). left; eauto. }
  destruct Hd as [[d Ht]|Hno].
  - exists d.
    destruct (existsb (str_eq_val tok) (Dict.values d)) eqn:Hu.
    { rewrite (handle_token_duplicate env tok now w d Ht Hu) in H.
      discriminate. }
    destruct (Nat.le_gt_cases MAX_BOTS (List.length (processes w))) as [Hn|Hn].
    { rewrite (handle_token_full env tok now w d Ht Hu Hn) in H.
      discriminate. }
    destruct (spawn_ok env (next_pid w)) eqn:Hs.
    + destruct (handle_token_started env tok now w d Ht Hu Hn Hs)
        as (w1 & E & Hp & Htk & _).
      rewrite E in H. inversion H; subst. auto 10.
    + destruct (handle_token_spawn_fails env tok now w d Ht Hu Hn Hs)
        as (w1 & E & _).
      rewrite E in H. discriminate.
  - unfold handle_token in H. cbn [negb] in H. unfold bind at 1 in H.
    rewrite (is_token_used_other tok w Hno) in H. discriminate.
Qed.

End MoreHandleFacts.

(** ** X1: validation fails closed *)

(** X1.  [validate_token] never raises, and what it returns passes the
    test of the handler only for a response with status 200 whose body is
    a [dict] with a true value under ['ok'].  A request that raises, any
    other status and any other body count as an invalid token: the
    handler answers [InvalidCredential] and changes nothing. *)
Theorem validation_fails_closed zero env tok o now w :
  (py_truthy zero (fst (validate_token o)) = true <->
   exists d v, o = Response 200 (Some (PDict d)) /\
               Dict.get "ok" d = Some v /\ py_truthy zero v = true) /\
  (py_truthy zero (fst (validate_token o)) = false ->
   handle_text_message zero env tok o now w = (Ok InvalidCredential, w)).
Proof.
  split.
  - unfold validate_token, validate_response. split.
    + destruct o as [e|status body]; simpl; [discriminate|].
      destruct (Nat.eqb_spec status 200) as [->|Hne]; simpl; [|discriminate].
      destruct body as [[| | | | |d]|]; simpl; try discriminate.
      destruct (Dict.get "ok" d) as [v|] eqn:G; simpl; [|discriminate].
      intros Hv. exists d, v. auto.
    + intros (d & v & -> & G & Hv). simpl. now rewrite G.
  - intros H. unfold handle_text_message. rewrite H. reflexivity.
Qed.

Lemma validation_fails_closed_witness :
  py_truthy (fun _ => false)
    (fst (validate_token (Response 404 (Some (PDict [("ok", PBool true)])))))
    = false /\
  handle_text_message (fun _ => false) env_ok "tokA"
      (Response 404 (Some (PDict [("ok", PBool true)]))) morning
      (boot env_ok two_bots)
    = (Ok InvalidCredential, boot env_ok two_bots).
Proof.
  split; [reflexivity|].
  apply (validation_fails_closed (fun _ => false) env_ok "tokA"
           (Response 404 (Some (PDict [("ok", PBool true)]))) morning
           (boot env_ok two_bots)).
  reflexivity.
Defined.

(** ** X2: the same token twice *)

(** The record of a bot stays in [tokens] through an operation that
    spares it. *)
Lemma step_keeps_record env id v op w :
  spares id op ->
  (exists d, tokens w = PDict d /\ In (id, v) d) ->
  exists d, tokens (step env w op) = PDict d /\ In (id, v) d.
Proof.
  intros Hop (d & Ht & Hin).
  assert (Hrm : forall id', id' <> id ->
            exists d', tokens (snd (remove_bot env id' w)) = PDict d' /\
                       In (id, v) d').
  { intros id' Hne.
    destruct (remove_bot_dict env id' w d Ht) as (w1 & E & _ & Htk & _).
    rewrite E. exists (Dict.del id' d). split; [assumption|].
    apply In_del_other; [simpl; congruence | assumption]. }
  destruct op as [tok valid now|data| |id'|p]; simpl in *.
  - destruct (handle_token_cases env tok valid now w d Ht)
      as [(_ & Htk & _)|(_ & _ & _ & Htk & _)].
    + exists d. split; [congruence|assumption].
    + eexists. split; [exact Htk|].
      apply In_set_other; [simpl; congruence | assumption].
  - destruct (stop_specific_bot_world env data w) as [E|E]; rewrite E.
    + eauto.
    + now apply Hrm.
  - destruct Hop.
  - now apply Hrm.
  - eauto.
Qed.

Lemma run_keeps_record env id v ops : forall w,
  Forall (spares id) ops ->
  (exists d, tokens w = PDict d /\ In (id, v) d) ->
  exists d, tokens (run env w ops) = PDict d /\ In (id, v) d.
Proof.
  induction ops as [|op r IH]; intros w Hops Hw; simpl; [assumption|].
  inversion Hops as [|? ? Hop Hr]; subst.
  apply IH; [assumption|]. now apply step_keeps_record.
Qed.

(** X2.  After a message that was answered with a new bot, a message
    with the same token is answered with [DuplicateCredential] and
    changes nothing, whatever the clock shows and whether processes would
    start or not: at once, and after any operations that spare the record
    of the new bot (messages that are not handled in the second in which
    its bot_id was minted, presses on the stop buttons of other bots,
    removals of other bots, exits of children).  A message handled in
    that same second can replace the record (C6) and [/stop_all] removes
    it; the token is free again after those. *)
Theorem second_add_is_duplicate env env' tok now now' w id n w' ops :
  handle_token env tok true now w = (Ok (Started id n), w') ->
  Forall (spares id) ops ->
  let w'' := run env' w' ops in
  handle_token env' tok true now' w'' = (Ok DuplicateCredential, w'').
Proof.
  intros H Hops w''.
  destruct (handle_token_started_inv env tok true now w id n w' H)
    as (d & _ & _ & _ & _ & _ & _ & _ & Htk).
  destruct (run_keeps_record env' id (PStr tok) ops w' Hops)
    as (d' & Ht' & Hin).
  { eexists. split; [exact Htk|]. apply In_set_same. }
  apply (handle_token_duplicate env' tok now' w'' d' Ht').
  apply existsb_exists. exists (PStr tok). split.
  - apply in_map_iff. exists (id, PStr tok). split; [reflexivity|assumption].
  - simpl. apply String.eqb_refl.
Qed.

Lemma second_add_is_duplicate_witness :
  let w := boot env_ok Missing in
  let w' := snd (handle_token env_ok "tokA" true morning w) in
  let ops := [OpHandleToken "tokB" true next_second;
              OpStopSpecific "stop_bot_20240517_090308";
              OpChildExit 0] in
  let w'' := run env_first_spawn_fails w' ops in
  handle_token env_ok "tokA" true morning w
    = (Ok (Started "bot_20240517_090307" 1), w') /\
  Forall (spares "bot_20240517_090307") ops /\
  handle_token env_first_spawn_fails "tokA" true next_second w''
    = (Ok DuplicateCredential, w'').
Proof.
  intros w w' ops w''.
  assert (H : handle_token env_ok "tokA" true morning w
              = (Ok (Started "bot_20240517_090307" 1), w'))
    by (vm_compute; reflexivity).
  assert (Hops : Forall (spares "bot_20240517_090307") ops).
  { repeat constructor; vm_compute; discriminate. }
  split; [exact H|]. split; [exact Hops|].
  exact (second_add_is_duplicate env_ok env_first_spawn_fails "tokA"
           morning next_second w "bot_20240517_090307" 1 w' ops H Hops).
Defined.

(** ** X3: a process that does not start *)

(** X3.  When the process of a valid, unused token does not start,
    [handle_token] raises [OSError] before [add_bot] is reached: nothing
    is tracked, nothing is stored, the file is not written and no process
    runs that did not run before. *)
Theorem failed_start_adds_nothing env tok now w :
  is_token_used tok w = (Ok false, w) ->
  List.length (processes w) < MAX_BOTS ->
  spawn_ok env (next_pid w) = false ->
  exists w',
    handle_token env tok true now w = (Raise OSError, w') /\
    processes w' = processes w /\ tokens w' = tokens w /\
    disk w' = disk w /\ writes w' = writes w /\ alive w' = alive w /\
    trace w' = SysStart (next_pid w) false :: trace w.
Proof.
  intros H Hn Hs.
  destruct (is_token_used_inv tok w false H) as (d & Ht & Hb).
  destruct (handle_token_spawn_fails env tok now w d Ht (eq_sym Hb) Hn Hs)
    as (w' & E & Hp & Htk & Hd & Ha & Hw & _).
  pose proof (handle_token_spawn_fails_trace env tok now w d Ht (eq_sym Hb)
                Hn Hs) as T.
  rewrite E in T. exists w'. auto 10.
Qed.

Lemma failed_start_adds_nothing_witness :
  let w := boot env_first_spawn_fails Missing in
  is_token_used "tokA" w = (Ok false, w) /\
  List.length (processes w) < MAX_BOTS /\
  spawn_ok env_first_spawn_fails (next_pid w) = false /\
  exists w',
    handle_token env_first_spawn_fails "tokA" true morning w
      = (Raise OSError, w') /\
    processes w' = processes w /\ tokens w' = tokens w /\
    disk w' = disk w /\ writes w' = writes w /\ alive w' = alive w /\
    trace w' = SysStart (next_pid w) false :: trace w.
Proof.
  intros w.
  assert (Hn : List.length (processes w) < MAX_BOTS) by (vm_compute; lia).
  split; [reflexivity|]. split; [exact Hn|]. split; [reflexivity|].
  exact (failed_start_adds_nothing env_first_spawn_fails "tokA" morning w
           eq_refl Hn eq_refl).
Defined.

(** ** X4: a file that cannot be written *)

(** X4.  When the file cannot be written, [handle_token] still answers
    with the new bot: the process runs and is tracked, its token is in
    [tokens], and the failure is only logged.  The file is as it was when
    [open] failed, and unreadable when the write broke off. *)
Theorem failed_save_keeps_the_bot env tok now w :
  is_token_used tok w = (Ok false, w) ->
  List.length (processes w) < MAX_BOTS ->
  spawn_ok env (next_pid w) = true ->
  write_outcome env (writes w) <> Written ->
  exists w',
    handle_token env tok true now w
      = (Ok (Started (mint_bot_id now) (List.length (processes w'))), w') /\
    Dict.get (mint_bot_id now) (processes w')
      = Some (mkBotProcess (PStr tok) (mint_bot_id now) (next_pid w)) /\
    In (next_pid w) (alive w') /\
    Dict.get (mint_bot_id now) (entries (tokens w')) = Some (PStr tok) /\
    disk w' = match write_outcome env (writes w) with
              | Torn => Unreadable
              | _ => disk w
              end /\
    In (Log ERROR ErrorSaving) (trace w').
Proof.
  intros H Hn Hs Hw.
  destruct (is_token_used_inv tok w false H) as (d & Ht & Hb).
  destruct (handle_token_started env tok now w d Ht (eq_sym Hb) Hn Hs)
    as (w' & E & Hp & Htk & Ha & _ & _ & Hd).
  pose proof (handle_token_started_trace env tok now w d Ht (eq_sym Hb)
                Hn Hs) as T.
  rewrite E in T. simpl in T.
  exists w'. split; [assumption|]. split; [|split; [|split; [|split]]].
  - rewrite Hp. apply DictFacts.get_set_eq.
  - rewrite Ha. simpl. auto.
  - rewrite Htk. simpl. apply DictFacts.get_set_eq.
  - rewrite Hd. destruct (write_outcome env (writes w)); try reflexivity.
    now destruct Hw.
  - rewrite T. right. apply in_or_app. left.
    destruct (write_outcome env (writes w)); simpl; auto.
Qed.

Lemma failed_save_keeps_the_bot_witness :
  let w := boot env_read_only two_bots in
  is_token_used "tokC" w = (Ok false, w) /\
  List.length (processes w) < MAX_BOTS /\
  spawn_ok env_read_only (next_pid w) = true /\
  write_outcome env_read_only (writes w) <> Written /\
  exists w',
    handle_token env_read_only "tokC" true morning w
      = (Ok (Started (mint_bot_id morning) (List.length (processes w'))), w') /\
    Dict.get (mint_bot_id morning) (processes w')
      = Some (mkBotProcess (PStr "tokC") (mint_bot_id morning) (next_pid w)) /\
    In (next_pid w) (alive w') /\
    Dict.get (mint_bot_id morning) (entries (tokens w')) = Some (PStr "tokC") /\
    disk w' = match write_outcome env_read_only (writes w) with
              | Torn => Unreadable
              | _ => disk w
              end /\
    In (Log ERROR ErrorSaving) (trace w').
Proof.
  intros w.
  assert (Hn : List.length (processes w) < MAX_BOTS) by (vm_compute; lia).
  assert (Hw : write_outcome env_read_only (writes w) <> Written)
    by discriminate.
  split; [reflexivity|]. split; [exact Hn|]. split; [reflexivity|].
  split; [exact Hw|].
  exact (failed_save_keeps_the_bot env_read_only "tokC" morning w
           eq_refl Hn eq_refl Hw).
Defined.

(** ** X5: adding and removing *)

(** X5.  A bot that was added under a bot_id that was in neither
    dictionary and is then removed leaves [processes] and [tokens] as they
    were before it was added, and a write that succeeds leaves their
    snapshot in the file. *)
Theorem add_then_remove_restores env tok now w :
  is_token_used tok w = (Ok false, w) ->
  List.length (processes w) < MAX_BOTS ->
  spawn_ok env (next_pid w) = true ->
  Dict.mem (mint_bot_id now) (processes w) = false ->
  Dict.mem (mint_bot_id now) (entries (tokens w)) = false ->
  let w1 := snd (handle_token env tok true now w) in
  let w2 := snd (remove_bot env (mint_bot_id now) w1) in
  remove_bot env (mint_bot_id now) w1 = (Ok tt, w2) /\
  processes w2 = processes w /\
  tokens w2 = tokens w /\
  (write_outcome env (writes w1) = Written ->
   disk w2 = Content (PDict [("tokens", tokens w)])).
Proof.
  intros H Hn Hs Hp0 Ht0 w1 w2.
  destruct (is_token_used_inv tok w false H) as (d & Ht & Hb).
  destruct (handle_token_started env tok now w d Ht (eq_sym Hb) Hn Hs)
    as (w' & E & Hp & Htk & _).
  assert (E1 : w1 = w') by (unfold w1; now rewrite E).
  rewrite Ht in Ht0. simpl in Ht0.
  apply DictFacts.mem_get in Hp0. apply DictFacts.mem_get in Ht0.
  destruct (remove_bot_dict env (mint_bot_id now) w1 _
              (eq_trans (f_equal tokens E1) Htk))
    as (w3 & E3 & Hp3 & Ht3 & _ & _ & Hy & _).
  assert (E2 : w2 = w3) by (unfold w2; now rewrite E3).
  rewrite E2. split; [assumption|].
  rewrite Hp3, Ht3, E1, Hp, !del_set_fresh by assumption.
  split; [reflexivity|]. split; [now rewrite Ht|].
  intros Hw. destruct Hy as [_ Hd].
  { unfold Dict.mem. now rewrite DictFacts.get_set_eq. }
  rewrite Hd, E1 in *. rewrite Hw, del_set_fresh by assumption.
  simpl. now rewrite Ht.
Qed.

Lemma add_then_remove_restores_witness :
  let w := boot env_ok two_bots in
  let w1 := snd (handle_token env_ok "tokC" true morning w) in
  let w2 := snd (remove_bot env_ok (mint_bot_id morning) w1) in
  is_token_used "tokC" w = (Ok false, w) /\
  remove_bot env_ok (mint_bot_id morning) w1 = (Ok tt, w2) /\
  processes w2 = processes w /\
  tokens w2 = tokens w /\
  (write_outcome env_ok (writes w1) = Written ->
   disk w2 = Content (PDict [("tokens", tokens w)])).
Proof.
  intros w w1 w2. split; [reflexivity|].
  assert (Hn : List.length (processes w) < MAX_BOTS) by (vm_compute; lia).
  apply (add_then_remove_restores env_ok "tokC" morning w eq_refl Hn eq_refl);
    vm_compute; reflexivity.
Defined.

(** ** Invariants of the states the supervisor reaches *)

Section MoreReachable.
Variable env : Env.

Lemma tokens_dict_or_not w :
  (exists d, tokens w = PDict d) \/ (forall d, tokens w <> PDict d).
Proof. destruct (tokens w); try (right; discriminate). left; eauto. Qed.

Lemma records_ok_remove id w :
  well_tracked w -> records_ok w -> records_ok (snd (remove_bot env id w)).
Proof.
  intros Hwt [Hnd Hr].
  destruct (tokens_dict_or_not w) as [[d Ht]|Hno].
  - destruct (remove_bot_dict env id w d Ht) as (w' & E & Hp & Htk & _).
    rewrite E. simpl. unfold records_ok. rewrite Hp, Htk. simpl. split.
    + now apply NoDup_keys_del.
    + intros k p Hin. apply In_del_inv in Hin. destruct Hin as [Hne Hin].
      destruct (Hr k p Hin) as [Hb Ht']. split; [assumption|].
      rewrite Ht in Ht'. simpl in Ht'. now apply In_del_other.
  - destruct Hwt as [Hp|(d & Ht & _)]; [|now destruct (Hno d)].
    rewrite (remove_bot_untyped env id w Hp Hno). split; assumption.
Qed.

Lemma records_ok_handle tok valid now w :
  records_ok w -> records_ok (snd (handle_token env tok valid now w)).
Proof.
  intros [Hnd Hr].
  destruct (tokens_dict_or_not w) as [[d Ht]|Hno].
  - destruct (handle_token_cases env tok valid now w d Ht)
      as [(Hp & Htk & _)|(_ & _ & Hp & Htk & _)];
      unfold records_ok; rewrite Hp, Htk.
    + split; assumption.
    + simpl. split; [now apply NoDup_keys_set|].
      intros k p Hin. apply In_set_inv in Hin; [|assumption].
      destruct Hin as [Hin|[Hne Hin]].
      * inversion Hin; subst. simpl. split; [reflexivity|].
        apply In_set_same.
      * destruct (Hr k p Hin) as [Hb Ht']. split; [assumption|].
        rewrite Ht in Ht'. simpl in Ht'. now apply In_set_other.
  - now rewrite handle_token_other.
Qed.

Lemma records_ok_restart it w :
  NoDup (Dict.keys (processes w)) ->
  NoDup (Dict.keys (processes (snd (restart env it w)))).
Proof.
  intros H. destruct (restart_any env it w) as (_ & _ & _ & [Hp|Hp]);
    rewrite Hp; [assumption | now apply NoDup_keys_set].
Qed.

Lemma records_ok_boot file : records_ok (boot env file).
Proof.
  split; [|intros k p Hin; rewrite boot_tokens;
          now apply (boot_processes env)].
  destruct (snapshot_items file) as [items|] eqn:E.
  - unfold boot. rewrite (BotManager_init_valid env file items E).
    unfold try_except.
    pose proof (for_each_inv _ (fun w => NoDup (Dict.keys (processes w)))
                  (restart env) items records_ok_restart
                  (loaded file items)) as H.
    destruct (for_each items (restart env) (loaded file items))
      as [[[]|e] w1]; simpl in *; apply H; constructor.
  - destruct (BotManager_init_corrupt env file E) as (w & Ew & Hp & _).
    unfold boot. rewrite Ew. simpl. rewrite Hp. constructor.
Qed.

Lemma reachable_records_ok file ops :
  well_tracked (run env (boot env file) ops) /\
  records_ok (run env (boot env file) ops).
Proof.
  apply (run_preserves env (fun w => well_tracked w /\ records_ok w)).
  - intros id w [H1 H2]. split;
      [now apply well_tracked_remove | now apply records_ok_remove].
  - intros tok valid now w [H1 H2]. split;
      [now apply well_tracked_handle | now apply records_ok_handle].
  - intros e w H. exact H.
  - intros l w H. exact H.
  - split; [apply well_tracked_boot | apply records_ok_boot].
Qed.

Lemma persisted_remove id w :
  (forall n, write_outcome env n = Written) ->
  well_tracked w -> persisted w -> persisted (snd (remove_bot env id w)).
Proof.
  intros Hw Hwt Hd.
  destruct (tokens_dict_or_not w) as [[d Ht]|Hno].
  - destruct (remove_bot_dict env id w d Ht)
      as (w' & E & _ & Htk & _ & _ & Hy & Hn).
    rewrite E. simpl. unfold persisted in *. rewrite Htk.
    destruct (Dict.mem id d) eqn:Hm.
    + destruct (Hy eq_refl) as [_ Hdisk]. now rewrite Hdisk, Hw.
    + destruct (Hn eq_refl) as [_ Hdisk]. rewrite Hdisk.
      apply DictFacts.mem_get in Hm.
      rewrite (DictFacts.del_absent id d Hm). congruence.
  - destruct Hwt as [Hp|(d & Ht & _)]; [|now destruct (Hno d)].
    now rewrite (remove_bot_untyped env id w Hp Hno).
Qed.

Lemma persisted_handle tok valid now w :
  (forall n, write_outcome env n = Written) ->
  persisted w -> persisted (snd (handle_token env tok valid now w)).
Proof.
  intros Hw Hd.
  destruct (tokens_dict_or_not w) as [[d Ht]|Hno].
  - destruct (handle_token_cases env tok valid now w d Ht)
      as [(_ & Htk & Hdk & _)|(_ & _ & _ & Htk & Hdk)];
      unfold persisted in *.
    + congruence.
    + now rewrite Hdk, Hw.
  - now rewrite handle_token_other.
Qed.

End MoreReachable.

(** ** X6: [stop_all_bots] twice *)

(** X6.  In every state the supervisor reaches, a second [stop_all_bots]
    right after the first returns normally and does nothing but log that
    all bots are stopped: no process is asked to terminate and the file
    is not written again. *)
Theorem stop_all_bots_twice env file ops :
  let w1 := snd (stop_all_bots env (run env (boot env file) ops)) in
  stop_all_bots env w1 = (Ok tt, emit (Log INFO AllStopped) w1).
Proof.
  intros w1. apply stop_all_bots_empty.
  apply (stop_all_bots_untracks env _ (reachable_well_tracked env file ops)).
Qed.

(** ** X7: a removed bot frees its place *)

(** X7.  In every state the supervisor reaches, the keys of [processes]
    are distinct, so that removing a tracked bot lowers the count by
    exactly one. *)
Theorem remove_bot_frees_one_place env file ops id :
  let w := run env (boot env file) ops in
  Dict.mem id (processes w) = true ->
  S (List.length (processes (snd (remove_bot env id w))))
  = List.length (processes w).
Proof.
  intros w Hm. rewrite remove_bot_processes.
  apply length_del_tracked; [|assumption].
  apply (reachable_records_ok env file ops).
Qed.

Lemma remove_bot_frees_one_place_witness :
  let w := run env_ok (boot env_ok two_bots)
               [OpHandleToken "tokC" true morning] in
  Dict.mem "bot_a" (processes w) = true /\
  S (List.length (processes (snd (remove_bot env_ok "bot_a" w))))
  = List.length (processes w).
Proof.
  intros w. split; [reflexivity|].
  exact (remove_bot_frees_one_place env_ok two_bots
           [OpHandleToken "tokC" true morning] "bot_a" eq_refl).
Defined.

(** ** X8: the records of a reachable state *)

(** X8.  In every state the supervisor reaches, a process that is tracked
    under a bot_id carries that bot_id, and its token is stored under the
    same bot_id in [tokens]. *)
Theorem tracked_records_agree env file ops k p :
  let w := run env (boot env file) ops in
  In (k, p) (processes w) ->
  bot_id p = k /\ In (k, token p) (entries (tokens w)).
Proof.
  intros w Hin. now apply (reachable_records_ok env file ops).
Qed.

Lemma tracked_records_agree_witness :
  let w := run env_ok (boot env_ok two_bots)
               [OpHandleToken "tokC" true morning; OpRemoveBot "bot_a"] in
  In ("bot_20240517_090307",
      mkBotProcess (PStr "tokC") "bot_20240517_090307" 2) (processes w) /\
  bot_id (mkBotProcess (PStr "tokC") "bot_20240517_090307" 2)
    = "bot_20240517_090307" /\
  In ("bot_20240517_090307", PStr "tokC") (entries (tokens w)).
Proof.
  intros w.
  assert (H : In ("bot_20240517_090307",
                  mkBotProcess (PStr "tokC") "bot_20240517_090307" 2)
                 (processes w))
    by (vm_compute; right; left; reflexivity).
  split; [exact H|].
  exact (tracked_records_agree env_ok two_bots
           [OpHandleToken "tokC" true morning; OpRemoveBot "bot_a"]
           "bot_20240517_090307"
           (mkBotProcess (PStr "tokC") "bot_20240517_090307" 2) H).
Defined.

(** ** X9: the file follows the registry *)

Lemma reachable_persisted env file ops :
  (forall n, write_outcome env n = Written) ->
  persisted (run env (boot env file) ops).
Proof.
  intros Hw.
  apply (run_preserves env (fun w => well_tracked w /\ persisted w)).
  - intros id w [H1 H2]. split;
      [now apply well_tracked_remove | now apply persisted_remove].
  - intros tok valid now w [H1 H2]. split;
      [now apply well_tracked_handle | now apply persisted_handle].
  - intros e w H. exact H.
  - intros l w H. exact H.
  - split; [apply well_tracked_boot|].
    unfold persisted. destruct (boot_disk env file) as [Hd _].
    now rewrite Hd, boot_tokens.
Qed.

(** X9.  If every write of the file succeeds, then in every state the
    supervisor reaches the snapshot in the file is [tokens], whether
    processes started or not. *)
Theorem file_follows_tokens env file ops :
  (forall n, write_outcome env n = Written) ->
  snapshot_of (disk (run env (boot env file) ops))
  = tokens (run env (boot env file) ops).
Proof. apply reachable_persisted. Qed.

Lemma file_follows_tokens_witness :
  let ops := [OpHandleToken "tokC" true morning; OpStopSpecific "stop_bot_a"] in
  (forall n, write_outcome env_first_spawn_fails n = Written) /\
  snapshot_of (disk (run env_first_spawn_fails
                         (boot env_first_spawn_fails two_bots) ops))
  = tokens (run env_first_spawn_fails
                (boot env_first_spawn_fails two_bots) ops).
Proof.
  intros ops.
  assert (Hw : forall n, write_outcome env_first_spawn_fails n = Written)
    by (intros; reflexivity).
  split; [exact Hw|].
  exact (file_follows_tokens env_first_spawn_fails two_bots ops Hw).
Defined.

(** ** X10: a file whose tokens are not a [dict] *)

(** X10.  When the file holds something else than a [dict] under
    ['tokens'], [load_saved_bots] leaves that value in [self.tokens].
    From then on nothing is ever tracked and [tokens] never changes, and
    every message with a valid token ends in [AttributeError] instead of
    an answer. *)
Theorem ill_typed_tokens_block_the_registry env file ops tok now :
  (forall d, snapshot_of file <> PDict d) ->
  let w := run env (boot env file) ops in
  processes w = [] /\ tokens w = snapshot_of file /\
  handle_token env tok true now w = (Raise AttributeError, w).
Proof.
  intros Hno w.
  assert (H : processes w = [] /\ tokens w = snapshot_of file).
  { apply (run_preserves env
             (fun w => processes w = [] /\ tokens w = snapshot_of file)).
    - intros id w0 [Hp Ht]. rewrite remove_bot_untyped; auto.
      intros d. rewrite Ht. apply Hno.
    - intros tok0 valid now0 w0 [Hp Ht]. rewrite handle_token_other; auto.
      intros d. rewrite Ht. apply Hno.
    - intros e w0 H. exact H.
    - intros l w0 H. exact H.
    - split; [|apply boot_tokens].
      destruct (well_tracked_boot env file) as [Hp|(d & Ht & _)];
        [assumption|].
      rewrite boot_tokens in Ht. now destruct (Hno d). }
  destruct H as [Hp Ht]. split; [assumption|]. split; [assumption|].
  unfold handle_token. cbn [negb]. unfold bind at 1.
  rewrite is_token_used_other; [reflexivity|].
  intros d. rewrite Ht. apply Hno.
Qed.

Lemma ill_typed_tokens_block_the_registry_witness :
  let w := run env_ok (boot env_ok list_of_tokens)
               [OpHandleToken "tokC" true morning; OpStopAll] in
  (forall d, snapshot_of list_of_tokens <> PDict d) /\
  processes w = [] /\ tokens w = snapshot_of list_of_tokens /\
  handle_token env_ok "tokD" true next_second w = (Raise AttributeError, w).
Proof.
  intros w.
  assert (H : forall d, snapshot_of list_of_tokens <> PDict d)
    by (intros d; discriminate).
  split; [exact H|].
  exact (ill_typed_tokens_block_the_registry env_ok list_of_tokens
           [OpHandleToken "tokC" true morning; OpStopAll] "tokD" next_second
           H).
Defined.

(** ** X11: processes that are not tracked *)

Section Untracked.
Variable env : Env.
Variable q : nat.

Lemma untracked_remove id w :
  In q (alive w) /\ untracked q w ->
  In q (alive (snd (remove_bot env id w))) /\
  untracked q (snd (remove_bot env id w)).
Proof.
  intros [Ha Hu]. split.
  - rewrite remove_bot_eq. unfold bind at 1.
    destruct (untrack_spec env id w) as (w1 & E1 & _ & _ & _ & _ & _ & Ha1).
    rewrite E1. destruct (unpersist_any env id w1) as [_ Ha2].
    rewrite Ha2, Ha1.
    destruct (Dict.get id (processes w)) as [p|] eqn:G; [|assumption].
    unfold alive_after_stop.
    destruct (existsb _ _ && _); [|assumption].
    apply filter_In. split; [assumption|].
    apply negb_true_iff, Nat.eqb_neq. intros Hq. subst q.
    apply (Hu id p); [|reflexivity].
    clear - G. induction (processes w) as [|[k' v'] r IH]; simpl in *;
      [discriminate|].
    destruct (String.eqb k' id) eqn:E.
    + apply String.eqb_eq in E. inversion G; subst. auto.
    + auto.
  - intros k p Hin. rewrite remove_bot_processes in Hin.
    apply DictFacts.In_del in Hin. now apply (Hu k p).
Qed.

End Untracked.

(** X11.  [stop_all_bots] stops tracked processes only: a process that
    runs and belongs to no record of the registry, such as one whose
    record was replaced, still runs when [stop_all_bots] returns. *)
Theorem stop_all_bots_spares_untracked env q w :
  In q (alive w) -> untracked q w ->
  In q (alive (snd (stop_all_bots env w))).
Proof.
  intros Ha Hu.
  apply (stop_all_bots_preserves env
           (fun w => In q (alive w) /\ untracked q w)); [| |auto].
  - intros id w0 H. now apply untracked_remove.
  - intros e w0 H. exact H.
Qed.

Lemma untracked_check q w :
  forallb (fun kp => negb (Nat.eqb (pid (snd kp)) q)) (processes w) = true ->
  untracked q w.
Proof.
  intros H k p Hin. rewrite forallb_forall in H. specialize (H _ Hin).
  simpl in H. now apply Nat.eqb_neq, negb_true_iff.
Qed.

Lemma stop_all_bots_spares_untracked_witness :
  let w := run env_ok (boot env_ok Missing)
               [OpHandleToken "tokA" true morning;
                OpHandleToken "tokB" true same_second] in
  In 0 (alive w) /\ untracked 0 w /\
  In 0 (alive (snd (stop_all_bots env_ok w))).
Proof.
  intros w.
  assert (Ha : In 0 (alive w)) by (vm_compute; auto).
  assert (Hu : untracked 0 w)
    by (apply untracked_check; vm_compute; reflexivity).
  split; [exact Ha|]. split; [exact Hu|].
  exact (stop_all_bots_spares_untracked env_ok 0 w Ha Hu).
Defined.

(** ** The stop keyboard *)

Lemma replace_stop_prefix s :
  replace_stop_ ("stop_" ++ s)%string = replace_stop_ s.
Proof. reflexivity. Qed.

Lemma replace_stop_cons c r :
  c <> "s"%char -> replace_stop_ (String c r) = String c (replace_stop_ r).
Proof.
  intros Hc.
  destruct c as [b0 b1 b2 b3 b4 b5 b6 b7].
  destruct b0, b1, b2, b3, b4, b5, b6, b7; try reflexivity.
  now destruct Hc.
Qed.

Lemma replace_stop_no_s s : no_s s = true -> replace_stop_ s = s.
Proof.
  induction s as [|c r IH]; [reflexivity|].
  cbn [no_s]. intros H. apply andb_true_iff in H. destruct H as [Hc Hr].
  apply negb_true_iff, Ascii.eqb_neq in Hc.
  now rewrite (replace_stop_cons c r Hc), (IH Hr).
Qed.

Lemma digit_not_s n : Ascii.eqb (digit n) "s" = false.
Proof.
  unfold digit. pose proof (Nat.mod_upper_bound n 10) as H.
  destruct (n mod 10) as [|[|[|[|[|[|[|[|[|[|m]]]]]]]]]];
    try reflexivity. lia.
Qed.

Lemma no_s_mint_bot_id now : no_s (mint_bot_id now) = true.
Proof.
  unfold mint_bot_id, strftime_Ymd_HMS, pad4, pad2.
  cbn [append no_s]. rewrite !digit_not_s. reflexivity.
Qed.

Lemma digit_not_continuation n : is_continuation (digit n) = false.
Proof.
  unfold digit. pose proof (Nat.mod_upper_bound n 10) as H.
  destruct (n mod 10) as [|[|[|[|[|[|[|[|[|[|m]]]]]]]]]];
    try reflexivity. lia.
Qed.

Lemma label_of_minted now :
  py_slice_to 8 (mint_bot_id now) = ("bot_" ++ pad4 (year now))%string.
Proof.
  unfold mint_bot_id, strftime_Ymd_HMS, pad4, pad2.
  cbn [append py_slice_to is_continuation andb negb].
  rewrite !digit_not_continuation. reflexivity.
Qed.

(** [s[:n]] counts code points, not bytes: the sign and the space of a
    button text are two code points in five bytes. *)
Lemma py_slice_to_code_points :
  py_slice_to 3 "🛑 Остановить" = "🛑 О"%string /\
  py_slice_to 8 "bot_2024" = "bot_2024"%string /\
  py_slice_to 8 "bot" = "bot"%string.
Proof. repeat split; reflexivity. Qed.

(** The data of a stop button goes to [stop_specific_bot], except for
    the bot_id ["bot"]: its data is ["stop_bot"], the data of the button
    of the main keyboard, and goes to [stop_bot_callback], which is
    registered first. *)
Lemma route_stop_button id :
  id <> "bot" ->
  route_callback (callback_data (stop_button id))
  = Some stop_specific_bot_handler.
Proof.
  intros Hne. apply String.eqb_neq in Hne.
  unfold route_callback, callback_handlers, callback_filter.
  cbn [callback_data stop_button find].
  cbn. rewrite Hne. destruct id; reflexivity.
Qed.

Lemma route_stop_button_of_bot :
  route_callback (callback_data (stop_button "bot"))
  = Some stop_bot_callback_handler.
Proof. reflexivity. Qed.

(** X12.  In every state the supervisor reaches, the keyboard of
    [stop_bot_callback] has a button for every tracked bot.  For a
    bot_id that has no ["stop_"] in it and is not ["bot"], the
    dispatcher gives a press on that button to [stop_specific_bot],
    which answers with [Stopped] for that bot_id, and the bot is no
    longer tracked afterwards. *)
Theorem stop_button_stops_its_bot env file ops id :
  let w := run env (boot env file) ops in
  Dict.mem id (processes w) = true ->
  replace_stop_ id = id ->
  id <> "bot" ->
  exists scr w',
    stop_bot_callback w = (Ok scr, w) /\
    In [stop_button id] (reply_markup scr) /\
    route_callback (callback_data (stop_button id))
      = Some stop_specific_bot_handler /\
    stop_specific_bot env (callback_data (stop_button id)) w
      = (Ok (Stopped id), w') /\
    Dict.mem id (processes w') = false.
Proof.
  intros w Hm Hid Hne.
  destruct (reachable_well_tracked env file ops) as [Hp|(d & Ht & _)];
    fold w in Hp || fold w in Ht.
  { rewrite Hp in Hm. discriminate Hm. }
  destruct (remove_bot_dict env id w d Ht) as (w' & E & Hp & _).
  pose proof (route_stop_button id Hne) as Hroute.
  unfold stop_bot_callback, stop_specific_bot. munfold.
  cbn [callback_data stop_button] in *.
  rewrite replace_stop_prefix, Hid, Hm, E.
  apply DictFacts.mem_keys in Hm.
  destruct (processes w) as [|kp r] eqn:EP; [destruct Hm|].
  eexists. exists w'. split; [reflexivity|]. cbn [reply_markup].
  split; [|split; [exact Hroute|split; [reflexivity|]]].
  - apply in_or_app. left.
    apply (in_map (fun id => [stop_button id]) _ _ Hm).
  - apply DictFacts.mem_get. rewrite Hp. apply DictFacts.get_del_eq.
Qed.

Lemma stop_button_stops_its_bot_witness :
  let w := run env_ok (boot env_ok two_bots)
               [OpHandleToken "tokC" true morning] in
  Dict.mem "bot_b" (processes w) = true /\
  replace_stop_ "bot_b" = "bot_b" /\
  "bot_b" <> "bot" /\
  exists scr w',
    stop_bot_callback w = (Ok scr, w) /\
    In [stop_button "bot_b"] (reply_markup scr) /\
    route_callback (callback_data (stop_button "bot_b"))
      = Some stop_specific_bot_handler /\
    stop_specific_bot env_ok (callback_data (stop_button "bot_b")) w
      = (Ok (Stopped "bot_b"), w') /\
    Dict.mem "bot_b" (processes w') = false.
Proof.
  intros w.
  assert (Hne : "bot_b" <> "bot") by discriminate.
  split; [reflexivity|]. split; [reflexivity|]. split; [exact Hne|].
  exact (stop_button_stops_its_bot env_ok two_bots
           [OpHandleToken "tokC" true morning] "bot_b" eq_refl eq_refl Hne).
Defined.

(** X13.  The callback data of the stop button of a minted bot_id is read
    back by [stop_specific_bot] as that bot_id, whatever the clock
    showed: a minted bot_id has no ["stop_"] in it. *)
Theorem minted_id_survives_the_button now :
  replace_stop_ (callback_data (stop_button (mint_bot_id now)))
  = mint_bot_id now.
Proof.
  cbn [callback_data stop_button]. rewrite replace_stop_prefix.
  apply replace_stop_no_s, no_s_mint_bot_id.
Qed.

(** X14.  A bot whose bot_id has ["stop_"] in it, as a file can name it,
    cannot be stopped with its button: [stop_specific_bot] reads another
    bot_id from the callback data, and the bot is still tracked
    afterwards. *)
Theorem stop_button_misses_id_with_stop_ env id w :
  replace_stop_ id <> id ->
  Dict.mem id (processes w) = true ->
  Dict.mem id
    (processes (snd (stop_specific_bot env (callback_data (stop_button id)) w)))
  = true.
Proof.
  intros Hne Hm. cbn [callback_data stop_button].
  destruct (stop_specific_bot_world env ("stop_" ++ id) w) as [E|E];
    rewrite E; [assumption|].
  rewrite replace_stop_prefix, remove_bot_processes.
  unfold Dict.mem in *. now rewrite DictFacts.get_del_ne.
Qed.

Lemma stop_button_misses_id_with_stop_witness :
  let w := boot env_ok bot_named_stop_1 in
  replace_stop_ "stop_1" <> "stop_1" /\
  Dict.mem "stop_1" (processes w) = true /\
  Dict.mem "stop_1"
    (processes (snd (stop_specific_bot env_ok
                       (callback_data (stop_button "stop_1")) w)))
  = true.
Proof.
  intros w.
  assert (H : replace_stop_ "stop_1" <> "stop_1") by discriminate.
  split; [exact H|]. split; [reflexivity|].
  exact (stop_button_misses_id_with_stop_ env_ok "stop_1" w H eq_refl).
Defined.

(** X15.  The text of a stop button shows the first eight characters of
    the bot_id, which for a minted bot_id are ["bot_"] and the year: the
    buttons of all bots that were added in the same year have the same
    text. *)
Theorem same_year_same_button_text now now' :
  year now = year now' ->
  text (stop_button (mint_bot_id now))
  = text (stop_button (mint_bot_id now')).
Proof.
  intros Hy. cbn [text stop_button]. now rewrite !label_of_minted, Hy.
Qed.

Lemma same_year_same_button_text_witness :
  year morning = year next_second /\
  mint_bot_id morning <> mint_bot_id next_second /\
  text (stop_button (mint_bot_id morning))
  = text (stop_button (mint_bot_id next_second)).
Proof.
  split; [reflexivity|]. split; [discriminate|].
  exact (same_year_same_button_text morning next_second eq_refl).
Defined.

(** ** The minted identifier *)

Lemma two_digits a b :
  a < 100 -> b < 100 ->
  (a / 10) mod 10 = (b / 10) mod 10 -> a mod 10 = b mod 10 -> a = b.
Proof. lia. Qed.

Lemma four_digits a b :
  a < 100 * 100 -> b < 100 * 100 ->
  (a / 1000) mod 10 = (b / 1000) mod 10 ->
  (a / 100) mod 10 = (b / 100) mod 10 ->
  (a / 10) mod 10 = (b / 10) mod 10 -> a mod 10 = b mod 10 -> a = b.
Proof. lia. Qed.

Lemma digit_inj a b : digit a = digit b -> a mod 10 = b mod 10.
Proof.
  unfold digit. intros H. apply (f_equal nat_of_ascii) in H.
  pose proof (Nat.mod_upper_bound a 10). pose proof (Nat.mod_upper_bound b 10).
  rewrite !nat_ascii_embedding in H by lia. lia.
Qed.

(** X16.  Two readings of the clock that differ in the year, the month,
    the day, the hour, the minute or the second give different bot_ids:
    only readings within the same second give the same bot_id. *)
Theorem minted_ids_differ_across_seconds now now' :
  clock_ok now -> clock_ok now' ->
  mint_bot_id now = mint_bot_id now' ->
  year now = year now' /\ month now = month now' /\ day now = day now' /\
  hour now = hour now' /\ minute now = minute now' /\
  second now = second now'.
Proof.
  intros (Hy & Hm & Hd & Hh & Hmi & Hs) (Hy' & Hm' & Hd' & Hh' & Hmi' & Hs').
  unfold mint_bot_id, strftime_Ymd_HMS, pad4, pad2. cbn [append].
  intros H. injection H as Y3 Y2 Y1 Y0 M1 M0 D1 D0 H1 H0 I1 I0 S1 S0.
  apply digit_inj in Y3, Y2, Y1, Y0, M1, M0, D1, D0, H1, H0, I1, I0, S1, S0.
  split; [apply four_digits; assumption|].
  repeat split; apply two_digits; assumption.
Qed.

Lemma minted_ids_differ_across_seconds_witness :
  clock_ok morning /\ clock_ok same_second /\
  mint_bot_id morning = mint_bot_id same_second /\
  year morning = year same_second /\ month morning = month same_second /\
  day morning = day same_second /\ hour morning = hour same_second /\
  minute morning = minute same_second /\
  second morning = second same_second.
Proof.
  assert (H1 : clock_ok morning) by (unfold clock_ok; simpl; lia).
  assert (H2 : clock_ok same_second) by (unfold clock_ok; simpl; lia).
  split; [exact H1|]. split; [exact H2|]. split; [reflexivity|].
  exact (minted_ids_differ_across_seconds morning same_second H1 H2 eq_refl).
Defined.

(** ** Operations leave the other bots alone *)

(** X17.  [remove_bot] touches one bot only: the record and the token of
    every other bot_id are as before, and every process but the one that
    was tracked under the removed bot_id runs afterwards if and only if it
    ran before. *)
Theorem remove_bot_leaves_the_others env id w d :
  tokens w = PDict d ->
  let w' := snd (remove_bot env id w) in
  (forall k, k <> id ->
     Dict.get k (processes w') = Dict.get k (processes w) /\
     Dict.get k (entries (tokens w')) = Dict.get k d) /\
  (forall q,
     (forall p, Dict.get id (processes w) = Some p -> pid p <> q) ->
     (In q (alive w') <-> In q (alive w))).
Proof.
  intros Ht w'.
  destruct (remove_bot_dict env id w d Ht)
    as (w1 & E & Hp & Htk & _ & Ha & _).
  unfold w'. rewrite E. simpl. split.
  - intros k Hne. rewrite Hp, Htk. simpl.
    split; apply DictFacts.get_del_ne; congruence.
  - intros q Hq. rewrite Ha.
    destruct (Dict.get id (processes w)) as [p|]; [|tauto].
    unfold alive_after_stop. destruct (existsb _ _ && _); [|tauto].
    rewrite filter_In, negb_true_iff, Nat.eqb_neq.
    specialize (Hq p eq_refl). intuition congruence.
Qed.

Lemma remove_bot_leaves_the_others_witness :
  let w := boot env_ok two_bots in
  let w' := snd (remove_bot env_ok "bot_a" w) in
  tokens w = PDict [("bot_a", PStr "tokA"); ("bot_b", PStr "tokB")] /\
  Dict.get "bot_b" (processes w') = Dict.get "bot_b" (processes w) /\
  Dict.get "bot_b" (entries (tokens w'))
    = Dict.get "bot_b" [("bot_a", PStr "tokA"); ("bot_b", PStr "tokB")].
Proof.
  intros w w'. split; [reflexivity|].
  assert (H : "bot_b" <> "bot_a") by discriminate.
  destruct (remove_bot_leaves_the_others env_ok "bot_a" w
              [("bot_a", PStr "tokA"); ("bot_b", PStr "tokB")] eq_refl)
    as [Hk _].
  exact (Hk "bot_b" H).
Defined.

(** X18.  [handle_token] touches at most the record of the bot_id it
    mints and stops nothing: whatever it answers, the record of every
    other bot_id is as before and every process that ran before still
    runs. *)
Theorem handle_token_leaves_the_others env tok valid now w :
  let w' := snd (handle_token env tok valid now w) in
  (forall k, k <> mint_bot_id now ->
     Dict.get k (processes w') = Dict.get k (processes w) /\
     Dict.get k (entries (tokens w')) = Dict.get k (entries (tokens w))) /\
  (forall q, In q (alive w) -> In q (alive w')).
Proof.
  intros w'.
  destruct (tokens_dict_or_not w) as [[d Ht]|Hno].
  - destruct valid;
      [|unfold w'; rewrite handle_token_invalid; simpl; auto].
    destruct (existsb (str_eq_val tok) (Dict.values d)) eqn:Hu.
    { unfold w'. rewrite (handle_token_duplicate env tok now w d Ht Hu).
      simpl; auto. }
    destruct (Nat.le_gt_cases MAX_BOTS (List.length (processes w))) as [Hn|Hn].
    { unfold w'. rewrite (handle_token_full env tok now w d Ht Hu Hn).
      simpl; auto. }
    destruct (spawn_ok env (next_pid w)) eqn:Hs.
    + destruct (handle_token_started env tok now w d Ht Hu Hn Hs)
        as (w1 & E & Hp & Htk & Ha & _).
      unfold w'. rewrite E. simpl. split.
      * intros k Hne. rewrite Hp, Htk, Ht. simpl.
        split; apply DictFacts.get_set_ne; congruence.
      * intros q Hq. rewrite Ha. simpl. auto.
    + destruct (handle_token_spawn_fails env tok now w d Ht Hu Hn Hs)
        as (w1 & E & Hp & Htk & _ & Ha & _).
      unfold w'. rewrite E. simpl. rewrite Hp, Htk, Ha. auto.
  - unfold w'. rewrite handle_token_other by assumption. auto.
Qed.

Lemma handle_token_leaves_the_others_witness :
  let w := boot env_ok two_bots in
  let w' := snd (handle_token env_ok "tokC" true morning w) in
  "bot_a" <> mint_bot_id morning /\
  Dict.get "bot_a" (processes w') = Dict.get "bot_a" (processes w) /\
  Dict.get "bot_a" (entries (tokens w'))
    = Dict.get "bot_a" (entries (tokens w)).
Proof.
  intros w w'.
  assert (H : "bot_a" <> mint_bot_id morning) by discriminate.
  split; [exact H|].
  destruct (handle_token_leaves_the_others env_ok "tokC" true morning w)
    as [Hk _].
  exact (Hk "bot_a" H).
Defined.

(** ** X19: a restart *)

(** X19.  If every write of the file succeeded, a supervisor that is
    started on the file that a run has left loads the tokens that the
    registry held at the end of that run; and if all its processes start,
    it tracks exactly the bot_ids of those tokens. *)
Theorem restart_recovers_the_registry env env' file ops :
  (forall n, write_outcome env n = Written) ->
  (forall n, spawn_ok env' n = true) ->
  let w := run env (boot env file) ops in
  let w2 := boot env' (disk w) in
  tokens w2 = tokens w /\
  (forall k, In k (Dict.keys (processes w2)) <->
             In k (Dict.keys (entries (tokens w)))).
Proof.
  intros Hw Hs w w2.
  assert (Ht : tokens w2 = tokens w).
  { unfold w2. rewrite boot_tokens. now apply reachable_persisted. }
  split; [assumption|]. intros k. split.
  - intros Hin. apply in_map_iff in Hin. destruct Hin as ([k' p] & Hk & Hin).
    simpl in Hk. subst k'.
    destruct (boot_processes env' (disk w) k p Hin) as [_ Hi].
    rewrite <- boot_tokens with (env := env') in Hi. fold w2 in Hi.
    rewrite Ht in Hi. apply in_map_iff. exists (k, token p). auto.
  - intros Hin. rewrite <- Ht in Hin.
    destruct (consistent_boot env' (disk w)) as [_ Hk]; [intros; apply Hs|].
    fold w2 in Hk. destruct (tokens w2) as [| | | | |d] eqn:E;
      try destruct Hin.
    apply (Hk d E). exact Hin.
Qed.

Lemma restart_recovers_the_registry_witness :
  let w := run env_ok (boot env_ok two_bots)
               [OpHandleToken "tokC" true morning; OpStopSpecific "stop_bot_a"] in
  let w2 := boot env_stubborn (disk w) in
  (forall n, write_outcome env_ok n = Written) /\
  (forall n, spawn_ok env_stubborn n = true) /\
  tokens w2 = tokens w /\
  (forall k, In k (Dict.keys (processes w2)) <->
             In k (Dict.keys (entries (tokens w)))).
Proof.
  intros w w2.
  assert (Hw : forall n, write_outcome env_ok n = Written)
    by (intros; reflexivity).
  assert (Hs : forall n, spawn_ok env_stubborn n = true)
    by (intros; reflexivity).
  split; [exact Hw|]. split; [exact Hs|].
  exact (restart_recovers_the_registry env_ok env_stubborn two_bots
           [OpHandleToken "tokC" true morning; OpStopSpecific "stop_bot_a"]
           Hw Hs).
Defined.
